(** * signid: hand-sign overlay pipeline and dataset split

    A shallow embedding of [src/utils.py], [src/demo.py] and
    [src/Model/test.py], followed by the properties stated about them.

    Conventions.
    - Python floats (landmark coordinates, the camera frame rate) are
      modelled by rationals [Q]; [int(x)] is truncation toward zero.
    - A numpy [uint8] image of shape [(h, w, c)] is a list of [h] rows of
      [w] pixels of [c] channels, each channel an integer with the
      wrap-around modulo 256 written out where numpy computes in [uint8].
    - numpy arrays are objects: they live in a [store] and are passed by
      reference ([loc]).  A function that allocates, mutates in place or
      raises is written in the monad [M].
    - Foreign code (mediapipe's skeleton drawing, OpenCV's text drawing, the
      pickled scaler and classifier, the seeded pandas shuffle) is taken as a
      parameter of the section that uses it. *)

From Stdlib Require Import ZArith QArith Qround Lia List Permutation Sorted.
From stdpp Require Import base option list strings pretty.

Open Scope Z_scope.

(* ===================================================================== *)
(** * Part I: the embedding                                              *)
(* ===================================================================== *)

(** ** Numbers *)

Module num.

(** Python's [int(x)] on a float: truncation toward zero. *)
Definition int (q : Q) : Z := Z.quot (Qnum q) (Z.pos (Qden q)).

(** Python's [math.floor]. *)
Definition floor (q : Q) : Z := Qfloor q.

(** Arithmetic in numpy's [uint8]. *)
Definition wrap8 (n : Z) : Z := n mod 256.

(** Python's [min] and [max] of a list: the first extremal element; they
    raise [ValueError] on an empty list ([None]). *)
Definition qmin (a b : Q) : Q := if Qle_bool a b then a else b.
Definition qmax (a b : Q) : Q := if Qle_bool b a then a else b.

Definition py_min (l : list Q) : option Q :=
  match l with
  | [] => None
  | a :: l' => Some (fold_left qmin l' a)
  end.

Definition py_max (l : list Q) : option Q :=
  match l with
  | [] => None
  | a :: l' => Some (fold_left qmax l' a)
  end.

End num.

(** ** Arrays, the object store and the exception monad *)

Module np.

Abbreviation pixel := (list Z).
Abbreviation image := (list (list (list Z))).

(** Objects are referred to by their position in the store; allocation
    appends, so that a fresh reference is [length σ]. *)
Abbreviation loc := nat.
Abbreviation store := (list (list (list (list Z)))).

(** A computation reads and updates the store and either returns a value or
    raises ([None]); the store survives an exception. *)
Definition M (A : Type) : Type := store -> option A * store.

Definition ret {A} (a : A) : M A := fun σ => (Some a, σ).
Definition raise {A} : M A := fun σ => (None, σ).
Definition bind {A B} (m : M A) (k : A -> M B) : M B :=
  fun σ => match m σ with
           | (Some a, σ') => k a σ'
           | (None, σ') => (None, σ')
           end.
Definition lift {A} (o : option A) : M A :=
  match o with Some a => ret a | None => raise end.

Definition alloc (a : image) : M loc := fun σ => (Some (length σ), σ ++ [a]).
Definition load (l : loc) : M image := fun σ => (σ !! l, σ).
(** In-place update of the array at [l] (the reference keeps its identity). *)
Definition modify (l : loc) (f : image -> option image) : M unit :=
  fun σ => match σ !! l ≫= f with
           | Some a => (Some tt, <[l := a]> σ)
           | None => (None, σ)
           end.

(** [a.shape] of a three-dimensional array, [a.size], [np.zeros(shape)]. *)
Definition shape (a : image) : nat * nat * nat :=
  (length a, length (hd [] a), length (hd [] (hd [] a))).

Definition size (a : image) : nat :=
  let '(h, w, c) := shape a in (h * w * c)%nat.

Definition zeros (s : nat * nat * nat) : image :=
  let '(h, w, c) := s in replicate h (replicate w (replicate c 0)).

(** [np.sum(a, axis=-1)]: the accumulator of a sum over [uint8] is a machine
    word of the platform, which the at most [3 * 255] of a pixel never
    wraps. *)
Definition sum_last (a : image) : list (list Z) :=
  map (map (fun px => foldr Z.add 0 px)) a.

(** [np.uint8(s > 0)] *)
Definition uint8_gt0 (s : list (list Z)) : list (list Z) :=
  map (map (fun v => if 0 <? v then 1 else 0)) s.

(** [np.dstack((a, alpha))]: [alpha] becomes one more channel. *)
Definition dstack (a : image) (alpha : list (list Z)) : image :=
  zip_with (zip_with (fun px v => px ++ [v])) a alpha.

(** [a[:, :, :3]] and [alpha[:, :, np.newaxis]] *)
Definition first3 (a : image) : image := map (map (take 3)) a.
Definition newaxis (alpha : list (list Z)) : image :=
  map (map (fun v => [v])) alpha.

(** [1 - a] in [uint8]. *)
Definition rsub1 (a : image) : image :=
  map (map (map (fun v => num.wrap8 (1 - v)))) a.

(** Element-wise product and sum in [uint8] of arrays of equal height and
    width; a last axis of length one is broadcast over the channels of the
    other operand. *)
Definition px_op (f : Z -> Z -> Z) (p q : pixel) : pixel :=
  match q with
  | [v] => map (fun c => num.wrap8 (f c v)) p
  | _ => zip_with (fun c v => num.wrap8 (f c v)) p q
  end.

Definition mul (a b : image) : image := zip_with (zip_with (px_op Z.mul)) a b.
Definition add (a b : image) : image := zip_with (zip_with (px_op Z.add)) a b.

(** [cv2.flip(a, 1)]: mirror every row. *)
Definition flip1 (a : image) : image := map (@rev pixel) a.

(** The pixel at row [i], column [j]. *)
Definition at_ (a : image) (i j : nat) : option pixel := a !! i ≫= (.!! j).

(** An array is rectangular: [h] rows of [w] pixels of [c] channels, each
    within [uint8]. *)
Definition is_uint8 (px : pixel) : Prop := Forall (fun v => 0 <= v < 256) px.

Definition has_shape (h w c : nat) (a : image) : Prop :=
  length a = h /\
  Forall (fun row => length row = w /\
                     Forall (fun px => length px = c /\ is_uint8 px) row) a.

(** *** The operations of a computation, one at a time

    For what another thread can see while a computation runs, a computation
    is also written as the tree of its operations on the store: each node is
    one operation, followed by what comes after it. *)
Inductive prog (A : Type) : Type :=
  | Ret (a : A)
  | Raise
  | Load (l : loc) (k : image -> prog A)
  | Alloc (a : image) (k : loc -> prog A)
  | Modify (l : loc) (f : image -> option image) (k : prog A).

Arguments Ret {A} a.
Arguments Raise {A}.
Arguments Load {A} l k.
Arguments Alloc {A} a k.
Arguments Modify {A} l f k.

Fixpoint pbind {A B} (p : prog A) (k : A -> prog B) : prog B :=
  match p with
  | Ret a => k a
  | Raise => Raise
  | Load l c => Load l (fun img => pbind (c img) k)
  | Alloc a c => Alloc a (fun l => pbind (c l) k)
  | Modify l f c => Modify l f (pbind c k)
  end.

Definition plift {A} (o : option A) : prog A :=
  match o with Some a => Ret a | None => Raise end.

(** Running the operations of a tree in one go. *)
Fixpoint exec {A} (p : prog A) : M A :=
  match p with
  | Ret a => ret a
  | Raise => raise
  | Load l k => bind (load l) (fun img => exec (k img))
  | Alloc a k => bind (alloc a) (fun l => exec (k l))
  | Modify l f k => bind (modify l f) (fun _ => exec k)
  end.

(** A computation under way: about to run the next operation of [p], or
    inside a foreign call that draws in place on the array [l] and will
    leave [result] there ([None]: it will raise). *)
Inductive thread (A : Type) : Type :=
  | Run (p : prog A)
  | Call (l : loc) (result : option image) (k : prog A).

Arguments Run {A} p.
Arguments Call {A} l result k.

(** One step.  Reading and allocating are one step each.  A foreign call
    that draws in place takes two: while it runs the array holds whatever the
    call has drawn so far ([partial], any contents), and when it returns the
    array holds its result. *)
Definition tstep {A} (partial : image) (t : thread A) (σ : store)
  : thread A * store :=
  match t with
  | Run (Load l k) =>
      match σ !! l with
      | Some img => (Run (k img), σ)
      | None => (Run Raise, σ)
      end
  | Run (Alloc a k) => (Run (k (length σ)), σ ++ [a])
  | Run (Modify l f k) => (Call l (σ !! l ≫= f) k, <[l := partial]> σ)
  | Run (Ret a) => (Run (Ret a), σ)
  | Run Raise => (Run Raise, σ)
  | Call l (Some a) k => (Run k, <[l := a]> σ)
  | Call l None k => (Run Raise, σ)
  end.

(** What a computation under way returns when left to run to its end. *)
Definition resume {A} (t : thread A) : M A :=
  match t with
  | Run p => exec p
  | Call l (Some a) k => fun σ => exec k (<[l := a]> σ)
  | Call l None k => raise
  end.

End np.

Notation "'do' x <- m ; k" := (np.bind m (fun x => k))
  (at level 10, x pattern, m at level 100, k at level 200, only parsing).

Notation "'ops' x <- p ; k" := (np.pbind p (fun x => k))
  (at level 10, x pattern, p at level 100, k at level 200, only parsing).

(** ** The detector's result ([mediapipe]'s [HandLandmarkerResult]) *)

Module mp.

Record landmark := { x : Q; y : Q; z : Q }.

Record category := { index : Z; category_name : string }.

Record HandLandmarkerResult := {
  handedness : list (list category);
  hand_landmarks : list (list landmark);
  hand_world_landmarks : list (list landmark)
}.

End mp.

(** ** [src/utils.py] *)

Module utils.

Definition MARGIN : Z := 10.

Section drawing.

(** [solutions.drawing_utils.draw_landmarks(image, landmark_list,
    HAND_CONNECTIONS, ...)] and [cv2.putText(image, text, org,
    FONT_HERSHEY_SIMPLEX, FONT_SIZE, HANDEDNESS_TEXT_COLOR, FONT_THICKNESS,
    LINE_AA)]: what the array holds after the call, or [None] when the call
    raises.  Both draw in place. *)
Variable draw_landmarks : np.image -> list mp.landmark -> option np.image.
Variable putText : np.image -> string -> Z * Z -> option np.image.

(** Lines 88-91 and the [org] argument of line 97. *)
Definition text_org (h w : nat) (hand_landmarks : list mp.landmark)
  : option (Z * Z) :=
  x ← num.py_max (map mp.x hand_landmarks);
  y ← num.py_min (map mp.y hand_landmarks);
  let text_x := num.int (x * inject_Z (Z.of_nat w)) + MARGIN in
  let text_y := num.int (y * inject_Z (Z.of_nat h)) - MARGIN in
  Some (Z.of_nat w - text_x, text_y).

(** [cv2.flip(a, 1)] returns a new array. *)
Definition flip (a : np.loc) : np.M np.loc :=
  do img <- np.load a; np.alloc (np.flip1 img).

(** The body of the loop of [draw_landmarks_on_image], lines 73-104; it
    yields the array [annotated_image] is bound to afterwards. *)
Definition draw_hand (h w : nat) (predictions : list string)
    (annotated_image : np.loc) (idx : nat) (hand_landmarks : list mp.landmark)
  : np.M np.loc :=
  do _ <- np.modify annotated_image (fun a => draw_landmarks a hand_landmarks);
  do org <- np.lift (text_org h w hand_landmarks);
  do annotated_image <- flip annotated_image;
  do label <- np.lift (predictions !! idx);
  do _ <- np.modify annotated_image (fun a => putText a label org);
  flip annotated_image.

(** [for idx in range(len(hand_landmarks_list))], from [idx] on. *)
Fixpoint draw_hands (h w : nat) (predictions : list string)
    (annotated_image : np.loc) (idx : nat)
    (hand_landmarks_list : list (list mp.landmark)) : np.M np.loc :=
  match hand_landmarks_list with
  | [] => np.ret annotated_image
  | hand_landmarks :: rest =>
      do annotated_image <-
        draw_hand h w predictions annotated_image idx hand_landmarks;
      draw_hands h w predictions annotated_image (S idx) rest
  end.

Definition draw_landmarks_on_image (rgb_image : np.loc)
    (detection_result : mp.HandLandmarkerResult) (predictions : list string)
  : np.M np.loc :=
  do img <- np.load rgb_image;
  let '(h, w, c) := np.shape img in
  let hand_landmarks_list := mp.hand_landmarks detection_result in
  do annotated_image <- np.alloc (np.zeros (h, w, c));
  draw_hands h w predictions annotated_image 0 hand_landmarks_list.

End drawing.

(** The array [add_transparent_image] returns, lines 110-116.  Every
    intermediate array of the body is a temporary or a read-only view. *)
Definition blend (background foreground : np.image) : np.image :=
  let alpha := np.uint8_gt0 (np.sum_last foreground) in
  let foreground := np.dstack foreground alpha in
  let foreground_colors := np.first3 foreground in
  let alpha_mask := np.newaxis alpha in
  np.add (np.mul background (np.rsub1 alpha_mask))
         (np.mul foreground_colors alpha_mask).

Definition add_transparent_image (background foreground : np.loc)
  : np.M np.loc :=
  do bg <- np.load background;
  do fg <- np.load foreground;
  np.alloc (blend bg fg).

(** *** [drawLandmarks], lines 14-63 *)

(** The arguments of [cv2.putText] that differ between its two calls there;
    the face [FONT_HERSHEY_DUPLEX] and the line type [LINE_AA] are the same
    in both. *)
Record text_style := {
  fontScale : Z;
  color : Z * Z * Z;
  thickness : Z
}.

Definition outline : text_style :=
  {| fontScale := 1; color := (0, 0, 0); thickness := 5 |}.
Definition fill : text_style :=
  {| fontScale := 1; color := (255, 255, 255); thickness := 2 |}.

Section handedness_drawing.

Variable draw_landmarks : np.image -> list mp.landmark -> option np.image.
Variable putText_styled :
  np.image -> string -> Z * Z -> text_style -> option np.image.

(** Lines 36-39: [(textX, textY)]. *)
Definition handedness_org (h w : nat) (landmarks : list mp.landmark)
  : option (Z * Z) :=
  x ← num.py_min (map mp.x landmarks);
  y ← num.py_min (map mp.y landmarks);
  Some (num.int (x * inject_Z (Z.of_nat w)),
        num.int (y * inject_Z (Z.of_nat h)) - 20).

(** The body of the loop for [idx], lines 22-61; [output] is drawn on in
    place. *)
Definition drawHand (h w : nat) (detectionResult : mp.HandLandmarkerResult)
    (output : np.loc) (idx : nat) : np.M unit :=
  do landmarks <- np.lift (mp.hand_landmarks detectionResult !! idx);
  do handedness <- np.lift (mp.handedness detectionResult !! idx);
  do _ <- np.modify output (fun a => draw_landmarks a landmarks);
  do org <- np.lift (handedness_org h w landmarks);
  do first <- np.lift (handedness !! 0%nat);
  do _ <- np.modify output
            (fun a => putText_styled a (mp.category_name first) org outline);
  do first <- np.lift (handedness !! 0%nat);
  np.modify output
    (fun a => putText_styled a (mp.category_name first) org fill).

Fixpoint drawHands (h w : nat) (detectionResult : mp.HandLandmarkerResult)
    (output : np.loc) (idxs : list nat) : np.M unit :=
  match idxs with
  | [] => np.ret tt
  | idx :: rest =>
      do _ <- drawHand h w detectionResult output idx;
      drawHands h w detectionResult output rest
  end.

(** [mode] is compared with ["transparent"]; any other string copies the
    image. *)
Definition drawLandmarks (rgbImage : np.loc)
    (detectionResult : mp.HandLandmarkerResult) (mode : string)
  : np.M np.loc :=
  do img <- np.load rgbImage;
  let '(h, w, c) := np.shape img in
  let landmarksList := mp.hand_landmarks detectionResult in
  do output <- np.alloc (if decide (mode = "transparent"%string)
                         then np.zeros (h, w, c) else img);
  do _ <- drawHands h w detectionResult output (seq 0 (length landmarksList));
  np.ret output.

End handedness_drawing.

(** *** [draw_landmarks_on_image] as the operations it performs, in order *)

Section drawing_operations.

Variable draw_landmarks : np.image -> list mp.landmark -> option np.image.
Variable putText : np.image -> string -> Z * Z -> option np.image.

Definition flip_ops (a : np.loc) : np.prog np.loc :=
  np.Load a (fun img => np.Alloc (np.flip1 img) np.Ret).

Definition draw_hand_ops (h w : nat) (predictions : list string)
    (annotated_image : np.loc) (idx : nat) (hand_landmarks : list mp.landmark)
  : np.prog np.loc :=
  ops _ <- np.Modify annotated_image
             (fun a => draw_landmarks a hand_landmarks) (np.Ret tt);
  ops org <- np.plift (text_org h w hand_landmarks);
  ops annotated_image <- flip_ops annotated_image;
  ops label <- np.plift (predictions !! idx);
  ops _ <- np.Modify annotated_image
             (fun a => putText a label org) (np.Ret tt);
  flip_ops annotated_image.

Fixpoint draw_hands_ops (h w : nat) (predictions : list string)
    (annotated_image : np.loc) (idx : nat)
    (hand_landmarks_list : list (list mp.landmark)) : np.prog np.loc :=
  match hand_landmarks_list with
  | [] => np.Ret annotated_image
  | hand_landmarks :: rest =>
      ops annotated_image <-
        draw_hand_ops h w predictions annotated_image idx hand_landmarks;
      draw_hands_ops h w predictions annotated_image (S idx) rest
  end.

Definition draw_landmarks_on_image_ops (rgb_image : np.loc)
    (detection_result : mp.HandLandmarkerResult) (predictions : list string)
  : np.prog np.loc :=
  np.Load rgb_image (fun img =>
    let '(h, w, c) := np.shape img in
    let hand_landmarks_list := mp.hand_landmarks detection_result in
    np.Alloc (np.zeros (h, w, c)) (fun annotated_image =>
      draw_hands_ops h w predictions annotated_image 0 hand_landmarks_list)).

End drawing_operations.

End utils.

(** ** [src/demo.py] *)

Module demo.

(** The two module-level variables the callback assigns: [predictions] is a
    Python list, [drawn_frame] a reference to an array. *)
Record globals := { predictions : list string; drawn_frame : np.loc }.

Section callback.

(** [scaler.transform] and [classifier.predict] on a batch of one row, each
    [None] when it raises. *)
Variable scaler_transform : list Q -> option (list Q).
Variable classifier_predict : list Q -> option string.
Variable draw_landmarks : np.image -> list mp.landmark -> option np.image.
Variable putText : np.image -> string -> Z * Z -> option np.image.

(** Line 30: [np.array([[l.x, l.y, l.z] for l in hand]).flatten()]. *)
Definition flatten (hand : list mp.landmark) : list Q :=
  flat_map (fun l => [mp.x l; mp.y l; mp.z l]) hand.

(** Line 33, the row handed to the scaler:
    [[handedness] + landmarks.tolist()]. *)
Definition data_row (handedness : Z) (hand : list mp.landmark) : list Q :=
  inject_Z handedness :: flatten hand.

(** Lines 30-35 for one [idx]: the label appended to [predictions], or
    [None] when a subscript, the scaler or the classifier raises. *)
Definition predict_hand (result : mp.HandLandmarkerResult) (idx : nat)
  : option string :=
  hand ← mp.hand_world_landmarks result !! idx;
  categories ← mp.handedness result !! idx;
  first ← categories !! 0%nat;
  data ← scaler_transform (data_row (mp.index first) hand);
  classifier_predict data.

(** The loop of lines 29-35 over the indices [idxs]: the list [predictions]
    is bound to when the loop ends, and whether it ended normally
    ([false]: an exception left it). *)
Fixpoint predict_hands (result : mp.HandLandmarkerResult) (idxs : list nat)
    (predictions : list string) : list string * bool :=
  match idxs with
  | [] => (predictions, true)
  | idx :: rest =>
      match predict_hand result idx with
      | Some prediction => predict_hands result rest (predictions ++ [prediction])
      | None => (predictions, false)
      end
  end.

(** [print_result], lines 21-39: the globals and the store when the callback
    returns.  [output_image] stands for [output_image.numpy_view()]; the
    [except] clause only prints. *)
Definition print_result (result : mp.HandLandmarkerResult)
    (output_image : np.loc) (g : globals) (σ : np.store)
  : globals * np.store :=
  let landmarks_ls := mp.hand_world_landmarks result in
  match predict_hands result (seq 0 (length landmarks_ls)) [] with
  | (predictions, true) =>
      match utils.draw_landmarks_on_image draw_landmarks putText
              output_image result predictions σ with
      | (Some frame, σ') =>
          ({| predictions := predictions; drawn_frame := frame |}, σ')
      | (None, σ') =>
          ({| predictions := predictions; drawn_frame := drawn_frame g |}, σ')
      end
  | (predictions, false) =>
      ({| predictions := predictions; drawn_frame := drawn_frame g |}, σ)
  end.

(** The same callback one statement at a time, for what another thread can
    see while it runs.  A control point is the statement about to run; the
    call of line 37 is run one array operation at a time. *)
Inductive pc :=
  | Enter                            (* line 27: predictions = [] *)
  | Loop (idx : nat)                 (* lines 29-35, iteration idx *)
  | Draw (t : np.thread np.loc)      (* line 37, inside the call *)
  | Assign (frame : np.loc)          (* line 37, the store to drawn_frame *)
  | Exit.

Definition config : Type := pc * globals * np.store.

Definition step (result : mp.HandLandmarkerResult) (output_image : np.loc)
    (partial : np.image) (c : config) : option config :=
  let '(p, g, σ) := c in
  match p with
  | Enter =>
      Some (Loop 0, {| predictions := []; drawn_frame := drawn_frame g |}, σ)
  | Loop idx =>
      if decide (idx < length (mp.hand_world_landmarks result))%nat then
        match predict_hand result idx with
        | Some prediction =>
            Some (Loop (S idx),
                  {| predictions := predictions g ++ [prediction];
                     drawn_frame := drawn_frame g |}, σ)
        | None => Some (Exit, g, σ)
        end
      else
        Some (Draw (np.Run (utils.draw_landmarks_on_image_ops draw_landmarks
                              putText output_image result (predictions g))),
              g, σ)
  | Draw (np.Run (np.Ret frame)) => Some (Assign frame, g, σ)
  | Draw (np.Run np.Raise) => Some (Exit, g, σ)
  | Draw t =>
      let '(t', σ') := np.tstep partial t σ in Some (Draw t', g, σ')
  | Assign frame =>
      Some (Exit, {| predictions := predictions g; drawn_frame := frame |}, σ)
  | Exit => None
  end.

(** The configurations the callback passes through, started in [c],
    whatever the foreign calls have drawn so far when they are looked at. *)
Inductive reaches (result : mp.HandLandmarkerResult) (output_image : np.loc)
  : config -> config -> Prop :=
  | reaches_refl c : reaches result output_image c c
  | reaches_step c partial c' c'' :
      step result output_image partial c = Some c' ->
      reaches result output_image c' c'' ->
      reaches result output_image c c''.

(** What a reader of the shared state gets: the prediction list and the
    contents of the array [drawn_frame] refers to. *)
Definition observe (g : globals) (σ : np.store)
  : list string * option np.image :=
  (predictions g, σ !! drawn_frame g).

End callback.

(** *** The capture loop *)

Definition INTERVAL : Z := 10.

(** Line 56: [math.floor(1000 / cam.get(cv2.CAP_PROP_FPS))]; the division
    raises on a frame rate of zero. *)
Definition fps (cam_fps : Q) : option Z :=
  if Qeq_bool cam_fps 0 then None else Some (num.floor (1000 / cam_fps)).

(** The loop variables, and the timestamps handed to [detect_async] so far
    (latest first). *)
Record loop_state := {
  timestamp : Z;
  show_timestamp : Z;
  submitted : list Z
}.

Definition loop_init : loop_state :=
  {| timestamp := 0; show_timestamp := 0; submitted := [] |}.

(** Lines 68-72 of one iteration, with the minimum gap and the step as
    parameters ([INTERVAL] and [fps] in the program). *)
Definition throttle (interval fps : Z) (s : loop_state) : loop_state :=
  let timestamp := timestamp s + fps in
  if interval <? timestamp - show_timestamp s then
    {| timestamp := timestamp; show_timestamp := timestamp;
       submitted := timestamp :: submitted s |}
  else
    {| timestamp := timestamp; show_timestamp := show_timestamp s;
       submitted := submitted s |}.

(** The loop variables after [n] frames have been read. *)
Fixpoint capture (interval fps : Z) (n : nat) : loop_state :=
  match n with
  | O => loop_init
  | S n' => throttle interval fps (capture interval fps n')
  end.

(** Lines 74-75: the frame that is shown (before the final mirroring), given
    the reference read from [drawn_frame]. *)
Definition overlay (frame drawn_frame : np.loc) : np.M np.loc :=
  do drawn <- np.load drawn_frame;
  if decide (0 < np.size drawn)%nat
  then utils.add_transparent_image frame drawn_frame
  else np.ret frame.

(** *** The control of the capture loop, lines 62-80 *)

(** Line 79: [cv2.waitKey(5) & 0xFF == 27]. *)
Definition esc (key : Z) : bool := Z.land key 255 =? 27.

(** What one pass of the loop gets from outside: [cam.isOpened()], the flag
    [cam.read()] returns and the value of [cv2.waitKey(5)]. *)
Record tick := { opened : bool; ret : bool; key : Z }.

(** The loop over the passes [ticks]: the loop variables and the number of
    frames shown when it ends (or when the passes given run out).  The
    pixel work of lines 69 and 74-77 changes none of them. *)
Fixpoint loop (interval fps : Z) (ticks : list tick) (s : loop_state)
    (shown : nat) : loop_state * nat :=
  match ticks with
  | [] => (s, shown)
  | t :: rest =>
      if opened t then
        if ret t then
          let s' := throttle interval fps s in
          if esc (key t) then (s', S shown)
          else loop interval fps rest s' (S shown)
        else (s, shown)
      else (s, shown)
  end.

End demo.

(** ** [src/Model/test.py] *)

Module split.

(** A CSV file: the header line and the records, cell by cell. *)
Record csv := { header : list string; records : list (list string) }.

(** A [DataFrame]: the column names and the rows, each with its index
    label. *)
Abbreviation row := (nat * list string)%type.
Record DataFrame := { columns : list string; rows : list row }.

(** Fresh labels [0..n-1], as [pd.read_csv], [ignore_index=True] and
    [reset_index(drop=True)] give. *)
Definition range_index (cells : list (list string)) : list row :=
  imap (fun i r => (i, r)) cells.

Definition read_csv (f : csv) : DataFrame :=
  {| columns := header f; rows := range_index (records f) |}.

Definition to_csv (df : DataFrame) : csv :=
  {| header := columns df; records := map snd (rows df) |}.

(** Line 9 *)
Definition letters : list string :=
  map (fun c => String c EmptyString)
      (String.list_ascii_of_string "ABCDEFGHIKLMNOPQRSTUVWXY#").

(** Line 17 *)
Definition expected_cols : list string :=
  ["letter"; "hand"]%string ++
  flat_map (fun i => map (fun coord => coord +:+ pretty i) ["x"; "y"; "z"]%string)
           (seq 0 21).

(** [df[name]] for one row: the cell under the first column called
    [name]. *)
Definition cell (cols : list string) (name : string) (r : row)
  : option string :=
  '(pos, _) ← list_find (fun c => c = name) cols;
  r.2 !! pos.

(** [int(n * 0.8)]; on doubles the product never falls below an integer it
    should reach, so the rational product truncates to the same integer. *)
Definition train_size (n : nat) : nat :=
  Z.to_nat (num.int (inject_Z (Z.of_nat n) * (8 # 10))).

Section sampling.

(** [np.random.RandomState(42).permutation(n)], the positions a
    [sample(..., random_state=42)] of a frame of [n] rows takes them from. *)
Variable permutation : nat -> list nat.

(** The whole frame in the order of that permutation. *)
Definition shuffled (frame : list row) : list row :=
  omap (fun pos => frame !! pos) (permutation (length frame)).

(** [frame.sample(n=n, random_state=42)]: the rows at the first [n]
    positions of the permutation. *)
Definition sample (n : nat) (frame : list row) : list row :=
  omap (fun pos => frame !! pos) (take n (permutation (length frame))).

(** [frame.drop(labels)] *)
Definition drop_labels (labels : list nat) (frame : list row) : list row :=
  filter (fun r => r.1 ∉ labels) frame.

(** Lines 27-31 for one letter: [(train_sample, test_sample)]. *)
Definition split_letter (df : DataFrame) (letter : string)
  : list row * list row :=
  let letter_data :=
    filter (fun r => cell (columns df) "letter" r = Some letter) (rows df) in
  let train_sample := sample (train_size (length letter_data)) letter_data in
  let remaining := drop_labels (map fst train_sample) letter_data in
  let test_sample := sample (length remaining) remaining in
  (train_sample, test_sample).

(** [pd.concat(frames, ignore_index=True).sample(frac=1,
    random_state=42).reset_index(drop=True)], lines 37-40. *)
Definition concat_shuffle (cols : list string) (frames : list (list row))
  : DataFrame :=
  let all := range_index (map snd (concat frames)) in
  {| columns := cols;
     rows := range_index (map snd (sample (length all) all)) |}.

(** The script: whether it ran to its end ([None]: it raised) and the files
    it wrote, in order. *)
Definition script (input : csv) : option unit * list (string * csv) :=
  let df := read_csv input in
  if decide (columns df = expected_cols) then
    let parts := map (split_letter df) letters in
    let train_df := concat_shuffle (columns df) (map fst parts) in
    let test_df := concat_shuffle (columns df) (map snd parts) in
    (Some tt, [("train.csv"%string, to_csv train_df);
               ("test.csv"%string, to_csv test_df)])
  else (None, []).

End sampling.

(** The schema as the specification lists it: [letter], [hand], then
    [x0..x20], [y0..y20], [z0..z20]. *)
Definition listed_cols : list string :=
  ["letter"; "hand"]%string ++
  flat_map (fun coord => map (fun i => coord +:+ pretty i) (seq 0 21))
           ["x"; "y"; "z"]%string.

(** How many records of a file carry [letter] in their first cell. *)
Definition count_letter (letter : string) (f : csv) : nat :=
  length (filter (fun r => r !! 0%nat = Some letter) (records f)).

(** A record whose letter is one of [letters]. *)
Definition listed (cells : list string) : Prop :=
  match cells !! 0%nat with
  | Some letter => letter ∈ letters
  | None => False
  end.

#[global] Instance listed_dec (cells : list string) : Decision (listed cells) :=
  match cells !! 0%nat as o
    return Decision (match o with Some letter => letter ∈ letters
                                | None => False end)
  with
  | Some letter => decide (letter ∈ letters)
  | None => right (fun f : False => f)
  end.

End split.

(** ** Vocabulary of the statements *)

(** The rule of the compositor for one pixel. *)
Definition select (pb pf : np.pixel) : np.pixel :=
  if decide (0 < foldr Z.add 0 pf) then pf else pb.

(** What lines 110-116 of [utils.py] compute at one pixel. *)
Definition blend_px (pb pf : np.pixel) : np.pixel :=
  let a := if 0 <? foldr Z.add 0 pf then 1 else 0 in
  np.px_op Z.add (np.px_op Z.mul pb [num.wrap8 (1 - a)])
                 (np.px_op Z.mul (take 3 (pf ++ [a])) [a]).

Definition all_zero (a : np.image) : Prop :=
  Forall (Forall (Forall (fun v => v = 0))) a.

(** [σ'] still holds the first [n] objects of [σ] untouched. *)
Definition keeps (n : nat) (σ σ' : np.store) : Prop :=
  (n <= length σ')%nat /\ forall l, (l < n)%nat -> σ' !! l = σ !! l.

(** [m] leaves the first [n] objects alone and, when it returns, returns a
    value in [post]. *)
Definition frames {A} (n : nat) (post : A -> Prop) (m : np.M A) : Prop :=
  forall σ, (n <= length σ)%nat ->
    keeps n σ (m σ).2 /\ forall a, (m σ).1 = Some a -> post a.

(** Every in-place operation of [p] is on an array of reference [n] or
    above, given that the references it is handed by [Alloc] are, and the
    value it returns is in [post]. *)
Inductive confined {A} (n : nat) (post : A -> Prop) : np.prog A -> Prop :=
  | confined_ret a : post a -> confined n post (np.Ret a)
  | confined_raise : confined n post np.Raise
  | confined_load l k :
      (forall img, confined n post (k img)) -> confined n post (np.Load l k)
  | confined_alloc a k :
      (forall l, (n <= l)%nat -> confined n post (k l)) ->
      confined n post (np.Alloc a k)
  | confined_modify l f k :
      (n <= l)%nat -> confined n post k -> confined n post (np.Modify l f k).

Definition confined_thread {A} (n : nat) (post : A -> Prop)
    (t : np.thread A) : Prop :=
  match t with
  | np.Run p => confined n post p
  | np.Call l _ k => (n <= l)%nat /\ confined n post k
  end.

(** The computation under way [t] in store [σ] still returns what the whole
    computation returns in one go ([whole]): the same value or exception,
    and, when it is a value, the same store. *)
Definition on_course {A} (whole : option A * np.store) (t : np.thread A)
    (σ : np.store) : Prop :=
  (np.resume t σ).1 = whole.1 /\
  (whole.1 <> None -> np.resume t σ = whole).

(** What holds at each control point of a run of the callback started with
    globals [g0] and store [σ0]. *)
Definition callback_inv
    (scaler_transform : list Q -> option (list Q))
    (classifier_predict : list Q -> option string)
    (draw_landmarks : np.image -> list mp.landmark -> option np.image)
    (putText : np.image -> string -> Z * Z -> option np.image)
    (result : mp.HandLandmarkerResult) (output_image : np.loc)
    (g0 : demo.globals) (σ0 : np.store) (c : demo.config) : Prop :=
  let predict_hands :=
    demo.predict_hands scaler_transform classifier_predict result in
  let len := length (mp.hand_world_landmarks result) in
  let '(p, g, σ) := c in
  match p with
  | demo.Enter => g = g0 /\ σ = σ0
  | demo.Loop idx =>
      (idx <= len)%nat /\ σ = σ0 /\
      demo.drawn_frame g = demo.drawn_frame g0 /\
      predict_hands (seq 0 len) []
      = predict_hands (seq idx (len - idx)) (demo.predictions g)
  | demo.Draw t =>
      demo.drawn_frame g = demo.drawn_frame g0 /\
      predict_hands (seq 0 len) [] = (demo.predictions g, true) /\
      keeps (length σ0) σ0 σ /\
      confined_thread (length σ0) (fun l => (length σ0 <= l)%nat) t /\
      on_course (utils.draw_landmarks_on_image draw_landmarks putText
                   output_image result (demo.predictions g) σ0) t σ
  | demo.Assign frame =>
      demo.drawn_frame g = demo.drawn_frame g0 /\
      predict_hands (seq 0 len) [] = (demo.predictions g, true) /\
      utils.draw_landmarks_on_image draw_landmarks putText
        output_image result (demo.predictions g) σ0 = (Some frame, σ)
  | demo.Exit =>
      keeps (length σ0) σ0 σ /\
      ((g, σ) = demo.print_result scaler_transform classifier_predict
                  draw_landmarks putText result output_image g0 σ0 \/
       demo.drawn_frame g = demo.drawn_frame g0)
  end.

(** The column a pixel of column [c] moves to when an image [w] pixels wide
    is mirrored. *)
Definition mirror (w : nat) (c : Z) : Z := Z.of_nat w - 1 - c.

(** The pixel of the smallest [x] and the smallest [y] of a hand, and a
    point within the margin of another in both directions. *)
Definition min_corner (h w : nat) (hand_landmarks : list mp.landmark)
  : option (Z * Z) :=
  x ← num.py_min (map mp.x hand_landmarks);
  y ← num.py_min (map mp.y hand_landmarks);
  Some (num.int (x * inject_Z (Z.of_nat w)),
        num.int (y * inject_Z (Z.of_nat h))).

Definition within_margin (p q : Z * Z) : Prop :=
  Z.abs (p.1 - q.1) <= utils.MARGIN /\ Z.abs (p.2 - q.2) <= utils.MARGIN.

(** Timestamps, latest first, each more than [interval] after the one
    before it, the earliest more than [interval] after zero. *)
Fixpoint spaced (interval : Z) (l : list Z) : Prop :=
  match l with
  | [] => True
  | t :: rest => interval < t - hd 0 rest /\ spaced interval rest
  end.

(** A pass on which the loop goes on: the camera is open, a frame was read
    and the key is not ESC. *)
Definition goes_on (t : demo.tick) : Prop :=
  demo.opened t = true /\ demo.ret t = true /\ demo.esc (demo.key t) = false.

(** Foreign drawing code that, on an array of shape [(h, w, c)] and an
    argument in [args], does not raise and leaves an array of that shape. *)
Definition draws_on {A} (h w c : nat) (args : A -> Prop)
    (draw : np.image -> A -> option np.image) : Prop :=
  forall a x,
    np.has_shape h w c a -> args x ->
    exists a', draw a x = Some a' /\ np.has_shape h w c a'.

(** ** Sample inputs *)

Module fixtures.

(** A scaler that passes the row on, a classifier that always answers,
    and one that raises on a left hand (handedness code 0). *)
Definition scaler (row : list Q) : option (list Q) := Some row.
Definition classifier (row : list Q) : option string := Some "B"%string.
Definition classifier_right_only (row : list Q) : option string :=
  match row with
  | handedness :: _ => if Qeq_bool handedness 0 then None else Some "B"%string
  | [] => None
  end.

(** A skeleton drawing that paints every pixel green, a text drawing that
    leaves the array as it is. *)
Definition draw_landmarks (a : np.image) (hand : list mp.landmark)
  : option np.image :=
  Some (map (map (fun _ => [0; 255; 0])) a).
Definition putText (a : np.image) (text : string) (org : Z * Z)
  : option np.image := Some a.

Definition palm : mp.landmark := {| mp.x := 1 # 2; mp.y := 1 # 2; mp.z := 0 |}.
Definition hand21 : list mp.landmark := replicate 21 palm.

(** Twenty-one landmarks with [x] from 8/64 to 28/64 and [y] from 16/64 to
    36/64. *)
Definition spread_hand : list mp.landmark :=
  map (fun i => {| mp.x := Z.of_nat (8 + i) # 64;
                   mp.y := Z.of_nat (16 + i) # 64; mp.z := 0 |})
      (seq 0 21).

Definition left : mp.category :=
  {| mp.index := 0; mp.category_name := "Left" |}.
Definition right : mp.category :=
  {| mp.index := 1; mp.category_name := "Right" |}.

Definition one_hand (hand : list mp.landmark) : mp.HandLandmarkerResult :=
  {| mp.handedness := [[right]]; mp.hand_landmarks := [hand];
     mp.hand_world_landmarks := [hand] |}.

Definition two_hands : mp.HandLandmarkerResult :=
  {| mp.handedness := [[left]; [right]];
     mp.hand_landmarks := [hand21; hand21];
     mp.hand_world_landmarks := [hand21; hand21] |}.

Definition no_hands : mp.HandLandmarkerResult :=
  {| mp.handedness := []; mp.hand_landmarks := [];
     mp.hand_world_landmarks := [] |}.

(** A store with the overlay published by an earlier callback (reference
    0) and the frame the detector worked on (reference 1), both one pixel;
    the globals that go with it. *)
Definition store : np.store := [ [[[9; 9; 9]]]; [[[1; 2; 3]]] ].
Definition globals : demo.globals :=
  {| demo.predictions := ["A"%string]; demo.drawn_frame := 0 |}.

(** A background and an overlay of one row and two pixels. *)
Definition background : np.image := [[[1; 2; 3]; [4; 5; 6]]].
Definition foreground : np.image := [[[0; 0; 0]; [0; 7; 0]]].

(** Tables: a record of letter [letter] of 65 cells, ten records of "A"
    under the header the script expects, one record of "J", and an empty
    table under the header in the order the specification lists. *)
Definition record (letter : string) : list string :=
  letter :: "0"%string :: replicate 63 "0.5"%string.
Definition table_A : split.csv :=
  {| split.header := split.expected_cols;
     split.records := replicate 10 (record "A") |}.
Definition table_J : split.csv :=
  {| split.header := split.expected_cols; split.records := [record "J"] |}.
Definition table_listed : split.csv :=
  {| split.header := split.listed_cols; split.records := [] |}.

(** A styled text drawing that leaves the array as it is. *)
Definition putText_styled (a : np.image) (text : string) (org : Z * Z)
    (style : utils.text_style) : option np.image := Some a.

End fixtures.

(* ===================================================================== *)
(** * Part II: the properties                                            *)
(* ===================================================================== *)

(** ** The compositor *)



Lemma blend_row_fused (rb rf : list np.pixel) :
  let alpha := map (fun v => if 0 <? v then 1 else 0)
                    (map (fun px => foldr Z.add 0 px) rf) in
  zip_with (np.px_op Z.add)
    (zip_with (np.px_op Z.mul) rb
       (map (map (fun v => num.wrap8 (1 - v))) (map (fun v => [v]) alpha)))
    (zip_with (np.px_op Z.mul)
       (map (take 3) (zip_with (fun px v => px ++ [v]) rf alpha))
       (map (fun v => [v]) alpha))
  = zip_with blend_px rb rf.
Proof.
  cbn zeta. revert rb.
  induction rf as [|pf rf IH]; intros [|pb rb]; try reflexivity.
  cbn [map zip_with]. f_equal. apply IH.
Qed.

Lemma blend_fused (bg fg : np.image) :
  utils.blend bg fg = zip_with (zip_with blend_px) bg fg.
Proof.
  unfold utils.blend, np.add, np.mul, np.rsub1, np.newaxis, np.first3,
    np.dstack, np.uint8_gt0, np.sum_last.
  revert bg. induction fg as [|rf fg IH]; intros [|rb bg]; try reflexivity.
  cbn [map zip_with]. f_equal; [|apply IH].
  apply blend_row_fused.
Qed.

Lemma blend_px_select (pb pf : np.pixel) :
  length pb = 3%nat -> length pf = 3%nat ->
  np.is_uint8 pb -> np.is_uint8 pf ->
  blend_px pb pf = select pb pf.
Proof.
  intros Hb Hf Ub Uf.
  destruct pb as [|b0 [|b1 [|b2 [|]]]]; try discriminate.
  destruct pf as [|f0 [|f1 [|f2 [|]]]]; try discriminate.
  unfold np.is_uint8 in *. rewrite !Forall_cons in Ub, Uf.
  unfold blend_px, select. cbn [foldr].
  case_decide as Hs.
  - rewrite (proj2 (Z.ltb_lt _ _) Hs). cbn. unfold num.wrap8.
    rewrite ?Z.mul_1_r, ?Z.mul_0_r, ?Z.add_0_l.
    rewrite ?Z.mod_mod by lia. rewrite !Z.mod_small by lia. reflexivity.
  - rewrite (proj2 (Z.ltb_ge _ _)) by lia. cbn. unfold num.wrap8.
    rewrite ?Z.mul_1_r, ?Z.mul_0_r, ?Z.add_0_r.
    rewrite ?Z.mod_mod by lia. rewrite !Z.mod_small by lia. reflexivity.
Qed.

Lemma select_shape (c : nat) (pb pf : np.pixel) :
  length pb = c /\ np.is_uint8 pb -> length pf = c /\ np.is_uint8 pf ->
  length (select pb pf) = c /\ np.is_uint8 (select pb pf).
Proof. intros Hb Hf. unfold select. case_decide; assumption. Qed.

Lemma blend_select (h w : nat) (bg fg : np.image) :
  np.has_shape h w 3 bg -> np.has_shape h w 3 fg ->
  utils.blend bg fg = zip_with (zip_with select) bg fg /\
  np.has_shape h w 3 (utils.blend bg fg).
Proof.
  rewrite blend_fused. unfold np.has_shape.
  intros [Hh Hb] [Hh' Hf]. subst h. revert fg Hh' Hf.
  induction Hb as [|rb bg [Hw Hrb] Hb IH]; intros [|rf fg] Hlen Hf;
    try discriminate; [split; [reflexivity|split; [reflexivity|constructor]]|].
  apply Forall_cons in Hf as [[Hw' Hrf] Hf].
  destruct (IH fg) as (E & L & F); [simpl in Hlen; lia|assumption|].
  assert (zip_with blend_px rb rf = zip_with select rb rf /\
          Forall (fun px => length px = 3%nat /\ np.is_uint8 px)
                 (zip_with blend_px rb rf)) as [Er Fr].
  { subst w. clear -Hw' Hrb Hrf. revert rf Hw' Hrf.
    induction Hrb as [|pb rb [Lb Ub] Hrb IHr]; intros [|pf rf] Hlen Hrf;
      try discriminate; [split; [reflexivity|constructor]|].
    apply Forall_cons in Hrf as [[Lf Uf] Hrf].
    destruct (IHr rf) as [E F]; [simpl in Hlen; lia|assumption|].
    cbn [zip_with]. rewrite E, blend_px_select by assumption.
    split; [reflexivity|]. constructor; [|rewrite <- E; exact F].
    apply select_shape; split; assumption. }
  cbn [zip_with]. rewrite E, Er. split; [reflexivity|]. split.
  - cbn [length]. f_equal. rewrite <- E. exact L.
  - constructor; [|rewrite <- E; exact F]. split; [|rewrite <- Er; exact Fr].
    rewrite <- Er, length_zip_with. lia.
Qed.

Lemma at_zip_with (f : np.pixel -> np.pixel -> np.pixel) (a b : np.image)
    (i j : nat) (pa pb : np.pixel) :
  np.at_ a i j = Some pa -> np.at_ b i j = Some pb ->
  np.at_ (zip_with (zip_with f) a b) i j = Some (f pa pb).
Proof.
  unfold np.at_. intros Ha Hb.
  destruct (a !! i) as [ra|] eqn:Ea; [|discriminate].
  destruct (b !! i) as [rb|] eqn:Eb; [|discriminate].
  simpl in Ha, Hb. rewrite lookup_zip_with, Ea, Eb. simpl.
  rewrite lookup_zip_with, Ha, Hb. reflexivity.
Qed.

(** C4.  For two images of the same height and width, three channels
    each and [uint8] values, [add_transparent_image] returns a new array:
    its reference was not in use, every array of the store (the two
    arguments among them) is as before, and each pixel of the result is the
    overlay's pixel where the channels of the overlay's pixel add up to more
    than zero and the background's pixel elsewhere. *)
Theorem add_transparent_image_composites (h w : nat) (σ : np.store)
    (background foreground : np.loc) (bg fg : np.image) :
  σ !! background = Some bg -> σ !! foreground = Some fg ->
  np.has_shape h w 3 bg -> np.has_shape h w 3 fg ->
  exists (result : np.loc) (σ' : np.store) (out : np.image),
    utils.add_transparent_image background foreground σ = (Some result, σ') /\
    σ !! result = None /\ σ' !! result = Some out /\
    (forall l a, σ !! l = Some a -> σ' !! l = Some a) /\
    np.has_shape h w 3 out /\
    forall i j pb pf,
      np.at_ bg i j = Some pb -> np.at_ fg i j = Some pf ->
      np.at_ out i j =
        Some (if decide (0 < foldr Z.add 0 pf) then pf else pb).
Proof.
  intros Hbg Hfg Sb Sf.
  destruct (blend_select h w bg fg Sb Sf) as [E S].
  exists (length σ), (σ ++ [utils.blend bg fg]), (utils.blend bg fg).
  repeat split; try (exact (proj1 S)); try (exact (proj2 S)).
  - unfold utils.add_transparent_image, np.bind, np.load, np.alloc.
    rewrite Hbg, Hfg. reflexivity.
  - apply lookup_ge_None. lia.
  - rewrite lookup_app_r, Nat.sub_diag by lia. reflexivity.
  - intros l a Hl. apply lookup_app_l_Some. exact Hl.
  - intros i j pb pf Hb Hf. rewrite E.
    apply (at_zip_with select); assumption.
Qed.

Lemma zeros_all_zero (s : nat * nat * nat) : all_zero (np.zeros s).
Proof.
  destruct s as [[h w] c]. unfold all_zero, np.zeros.
  repeat (apply Forall_replicate). reflexivity.
Qed.

Lemma zeros_has_shape (h w c : nat) : np.has_shape h w c (np.zeros (h, w, c)).
Proof.
  unfold np.has_shape, np.zeros. split; [apply length_replicate|].
  apply Forall_replicate. split; [apply length_replicate|].
  apply Forall_replicate. split; [apply length_replicate|].
  apply Forall_replicate. lia.
Qed.

(** The canvas allocated for an array has the shape of that array, also
    when the array has no rows or no columns. *)
Lemma zeros_like_has_shape (h w c : nat) (img : np.image) :
  np.has_shape h w c img -> np.has_shape h w c (np.zeros (np.shape img)).
Proof.
  intros [Hh Hrows]. unfold np.shape.
  destruct img as [|row img]; simpl in *.
  { subst h. split; [reflexivity|constructor]. }
  apply Forall_cons in Hrows as [[Hw Hrow] _].
  destruct row as [|px row]; simpl in *.
  { subst h w. split; [simpl; f_equal; apply length_replicate|].
    constructor; [split; [reflexivity|constructor]|].
    apply Forall_replicate. split; [reflexivity|constructor]. }
  apply Forall_cons in Hrow as [[Hc _] _]. subst h w c.
  apply (zeros_has_shape (S (length img)) (S (length row)) (length px)).
Qed.

Lemma select_zero (pb pf : np.pixel) :
  Forall (fun v => v = 0) pf -> select pb pf = pb.
Proof.
  intros Hz. unfold select.
  assert (foldr Z.add 0 pf = 0) as ->.
  { induction Hz as [|v pf -> _ IH]; simpl; [reflexivity|exact IH]. }
  case_decide; [lia|reflexivity].
Qed.

Lemma blend_all_zero (h w : nat) (bg fg : np.image) :
  np.has_shape h w 3 bg -> np.has_shape h w 3 fg -> all_zero fg ->
  utils.blend bg fg = bg.
Proof.
  intros Sb Sf Hz. rewrite (proj1 (blend_select h w bg fg Sb Sf)).
  destruct Sb as [Hh Hb], Sf as [Hh' Hf]. subst h.
  revert fg Hh' Hf Hz.
  induction Hb as [|rb bg [Hw _] _ IH]; intros [|rf fg] Hlen Hf Hz;
    try discriminate; [reflexivity|].
  apply Forall_cons in Hf as [[Hw' _] Hf].
  apply Forall_cons in Hz as [Hzr Hz].
  cbn [zip_with]. rewrite IH by (simpl in Hlen; lia || assumption).
  f_equal. subst w. clear -Hw' Hzr. revert rb Hw'.
  induction Hzr as [|pf rf Hpf _ IHr]; intros [|pb rb] Hlen;
    try discriminate; [reflexivity|].
  cbn [zip_with]. rewrite select_zero by assumption.
  f_equal. apply IHr. simpl in Hlen. lia.
Qed.

(** C5.  Blending an all-zero overlay of the same shape onto a background
    gives the background back; and rendering a result with no hands gives
    such an all-zero overlay, whose composition with the frame holds the
    frame's pixels unchanged. *)
Theorem zero_overlay_leaves_frame
    (draw_landmarks : np.image -> list mp.landmark -> option np.image)
    (putText : np.image -> string -> Z * Z -> option np.image)
    (h w : nat) (σ : np.store) (frame rgb_image : np.loc)
    (bg img : np.image) (result : mp.HandLandmarkerResult)
    (predictions : list string) :
  σ !! frame = Some bg -> σ !! rgb_image = Some img ->
  np.has_shape h w 3 bg -> np.has_shape h w 3 img ->
  mp.hand_landmarks result = [] ->
  utils.blend bg (np.zeros (h, w, 3%nat)) = bg /\
  exists (annotated : np.loc) (σ1 : np.store) (canvas : np.image)
         (out : np.loc) (σ2 : np.store),
    utils.draw_landmarks_on_image draw_landmarks putText
      rgb_image result predictions σ = (Some annotated, σ1) /\
    σ1 !! annotated = Some canvas /\ all_zero canvas /\
    utils.add_transparent_image frame annotated σ1 = (Some out, σ2) /\
    σ2 !! out = Some bg.
Proof.
  intros Hframe Hrgb Sb Si Hnone. split.
  { apply (blend_all_zero h w); [assumption|apply zeros_has_shape|].
    apply zeros_all_zero. }
  exists (length σ), (σ ++ [np.zeros (np.shape img)]),
    (np.zeros (np.shape img)), (S (length σ)), ((σ ++ [np.zeros (np.shape img)]) ++ [bg]).
  assert ((σ ++ [np.zeros (np.shape img)]) !! length σ
          = Some (np.zeros (np.shape img))) as Hnew.
  { rewrite lookup_app_r, Nat.sub_diag by lia. reflexivity. }
  repeat split.
  - unfold utils.draw_landmarks_on_image, np.bind, np.load, np.alloc.
    rewrite Hrgb, Hnone. destruct (np.shape img) as [[h' w'] c']. reflexivity.
  - exact Hnew.
  - apply zeros_all_zero.
  - unfold utils.add_transparent_image, np.bind, np.load, np.alloc.
    rewrite (lookup_app_l_Some _ _ _ _ Hframe), Hnew.
    rewrite (blend_all_zero h w bg _ Sb (zeros_like_has_shape _ _ _ _ Si)
               (zeros_all_zero _)).
    rewrite length_app. simpl. repeat f_equal. lia.
  - rewrite lookup_app_r; rewrite length_app; simpl; [|lia].
    replace (S (length σ) - (length σ + 1))%nat with 0%nat by lia. reflexivity.
Qed.

(** ** The detection callback *)

Section callback_facts.

Variable scaler_transform : list Q -> option (list Q).
Variable classifier_predict : list Q -> option string.
Variable draw_landmarks : np.image -> list mp.landmark -> option np.image.
Variable putText : np.image -> string -> Z * Z -> option np.image.

Local Abbreviation predict_hand :=
  (demo.predict_hand scaler_transform classifier_predict).
Local Abbreviation predict_hands :=
  (demo.predict_hands scaler_transform classifier_predict).
Local Abbreviation print_result :=
  (demo.print_result scaler_transform classifier_predict draw_landmarks putText).
Local Abbreviation step :=
  (demo.step scaler_transform classifier_predict draw_landmarks putText).
Local Abbreviation reaches :=
  (demo.reaches scaler_transform classifier_predict draw_landmarks putText).
Local Abbreviation draw_landmarks_on_image :=
  (utils.draw_landmarks_on_image draw_landmarks putText).

Lemma flatten_length (hand : list mp.landmark) :
  length (demo.flatten hand) = (3 * length hand)%nat.
Proof.
  unfold demo.flatten. induction hand as [|l hand IH]; [reflexivity|].
  cbn [flat_map length app]. rewrite IH. lia.
Qed.

(** C2 (as amended).  The row handed to the scaler is the handedness code
    followed by the flattened coordinates; its length is one plus three
    times the number of landmarks, hence 64 exactly for 21 landmarks.
    Building it never fails, whatever the number of landmarks. *)
Theorem data_row_length (handedness : Z) (hand : list mp.landmark) :
  length (demo.data_row handedness hand) = (1 + 3 * length hand)%nat /\
  (length (demo.data_row handedness hand) = 64%nat <-> length hand = 21%nat) /\
  head (demo.data_row handedness hand) = Some (inject_Z handedness) /\
  tail (demo.data_row handedness hand) = demo.flatten hand.
Proof.
  unfold demo.data_row. cbn [length head tail]. rewrite flatten_length.
  repeat split; lia.
Qed.

(** The loop over a run of indices that all classify. *)
Lemma predict_hands_app (result : mp.HandLandmarkerResult)
    (done rest : list nat) (acc : list string) :
  Forall (fun i => is_Some (predict_hand result i)) done ->
  predict_hands result (done ++ rest) acc
  = predict_hands result rest (acc ++ omap (predict_hand result) done).
Proof.
  intros Hok. revert acc.
  induction Hok as [|i done [p Hp] _ IH]; intros acc; cbn [app].
  - cbn. rewrite app_nil_r. reflexivity.
  - cbn [demo.predict_hands omap list_omap]. rewrite Hp, IH, <- app_assoc.
    reflexivity.
Qed.

(** C3 (as amended).  When classifying the observation of index [idx]
    fails (and the earlier ones succeed), the callback ends there:
    [predictions] holds the labels of the observations before [idx] only,
    no later observation is classified, nothing is rendered, [drawn_frame]
    still refers to the overlay published before, and the store is
    untouched. *)
Theorem failing_hand_ends_callback (result : mp.HandLandmarkerResult)
    (output_image : np.loc) (g : demo.globals) (σ : np.store) (idx : nat) :
  (idx < length (mp.hand_world_landmarks result))%nat ->
  predict_hand result idx = None ->
  (forall i, (i < idx)%nat -> is_Some (predict_hand result i)) ->
  print_result result output_image g σ
  = ({| demo.predictions := omap (predict_hand result) (seq 0 idx);
        demo.drawn_frame := demo.drawn_frame g |}, σ).
Proof.
  intros Hidx Hfail Hok. unfold demo.print_result.
  replace (length (mp.hand_world_landmarks result))
    with (idx + S (length (mp.hand_world_landmarks result) - S idx))%nat by lia.
  rewrite seq_app, predict_hands_app.
  - cbn [seq demo.predict_hands]. rewrite Nat.add_0_l, Hfail. reflexivity.
  - apply Forall_forall. intros i Hi. apply elem_of_seq in Hi. apply Hok. lia.
Qed.

End callback_facts.

(** ** Which arrays a computation may touch *)



Lemma keeps_refl (n : nat) (σ : np.store) : (n <= length σ)%nat -> keeps n σ σ.
Proof. intros H. split; [exact H|reflexivity]. Qed.

Lemma keeps_trans (n : nat) (σ1 σ2 σ3 : np.store) :
  keeps n σ1 σ2 -> keeps n σ2 σ3 -> keeps n σ1 σ3.
Proof.
  intros [_ H12] [L3 H23]. split; [exact L3|].
  intros l Hl. rewrite H23, H12 by exact Hl. reflexivity.
Qed.

Lemma frames_ret {A} (n : nat) (Q : A -> Prop) (a : A) :
  Q a -> frames n Q (np.ret a).
Proof.
  intros Ha σ Hσ. split; [apply keeps_refl, Hσ|].
  intros a' [= <-]. exact Ha.
Qed.

Lemma frames_lift {A} (n : nat) (o : option A) :
  frames n (fun _ => True) (np.lift o).
Proof.
  intros σ Hσ. destruct o; (split; [apply keeps_refl, Hσ|trivial]).
Qed.

Lemma frames_load (n : nat) (l : np.loc) :
  frames n (fun _ => True) (np.load l).
Proof. intros σ Hσ. split; [apply keeps_refl, Hσ|trivial]. Qed.

Lemma frames_alloc (n : nat) (a : np.image) :
  frames n (fun l => (n <= l)%nat) (np.alloc a).
Proof.
  intros σ Hσ. cbn. split; [split|].
  - rewrite length_app. lia.
  - intros l Hl. apply lookup_app_l. lia.
  - intros l [= <-]. exact Hσ.
Qed.

Lemma frames_modify (n : nat) (l : np.loc) (f : np.image -> option np.image) :
  (n <= l)%nat -> frames n (fun _ => True) (np.modify l f).
Proof.
  intros Hl σ Hσ. unfold np.modify.
  destruct (σ !! l ≫= f) as [a|]; cbn; (split; [|trivial]).
  - split; [rewrite length_insert; exact Hσ|].
    intros l' Hl'. apply list_lookup_insert_ne. lia.
  - apply keeps_refl, Hσ.
Qed.

Lemma frames_bind {A B} (n : nat) (Q : A -> Prop) (R : B -> Prop)
    (m : np.M A) (k : A -> np.M B) :
  frames n Q m -> (forall a, Q a -> frames n R (k a)) ->
  frames n R (np.bind m k).
Proof.
  intros Hm Hk σ Hσ. unfold np.bind.
  destruct (Hm σ Hσ) as [Hkeep HQ].
  destruct (m σ) as [[a|] σ1]; cbn in *.
  - destruct (Hk a (HQ a eq_refl) σ1 (proj1 Hkeep)) as [Hkeep' HR].
    split; [exact (keeps_trans _ _ _ _ Hkeep Hkeep')|exact HR].
  - split; [exact Hkeep|discriminate].
Qed.

Section drawing_facts.

Variable draw_landmarks : np.image -> list mp.landmark -> option np.image.
Variable putText : np.image -> string -> Z * Z -> option np.image.

Lemma frames_flip (n : nat) (a : np.loc) :
  frames n (fun l => (n <= l)%nat) (utils.flip a).
Proof.
  unfold utils.flip. eapply frames_bind; [apply frames_load|].
  intros img _. apply frames_alloc.
Qed.

Lemma frames_draw_hand (n h w : nat) (predictions : list string)
    (a : np.loc) (idx : nat) (hand : list mp.landmark) :
  (n <= a)%nat ->
  frames n (fun l => (n <= l)%nat)
    (utils.draw_hand draw_landmarks putText h w predictions a idx hand).
Proof.
  intros Ha. unfold utils.draw_hand.
  eapply frames_bind; [apply frames_modify, Ha|]. intros _ _.
  eapply frames_bind; [apply frames_lift|]. intros org _.
  eapply frames_bind; [apply frames_flip|]. intros a1 Ha1.
  eapply frames_bind; [apply frames_lift|]. intros label _.
  eapply frames_bind; [apply frames_modify, Ha1|]. intros _ _.
  apply frames_flip.
Qed.

Lemma frames_draw_hands (n h w : nat) (predictions : list string)
    (hands : list (list mp.landmark)) (a : np.loc) (idx : nat) :
  (n <= a)%nat ->
  frames n (fun l => (n <= l)%nat)
    (utils.draw_hands draw_landmarks putText h w predictions a idx hands).
Proof.
  revert a idx. induction hands as [|hand hands IH]; intros a idx Ha.
  - apply frames_ret, Ha.
  - cbn [utils.draw_hands].
    eapply frames_bind; [apply frames_draw_hand, Ha|].
    intros a' Ha'. apply IH, Ha'.
Qed.

(** Rendering allocates its canvas and draws there: no array that existed
    before the call is written, and the array returned is a new one. *)
Lemma frames_draw_landmarks_on_image (n : nat) (rgb_image : np.loc)
    (result : mp.HandLandmarkerResult) (predictions : list string) :
  frames n (fun l => (n <= l)%nat)
    (utils.draw_landmarks_on_image draw_landmarks putText
       rgb_image result predictions).
Proof.
  unfold utils.draw_landmarks_on_image.
  eapply frames_bind; [apply frames_load|]. intros img _.
  destruct (np.shape img) as [[h w] c].
  eapply frames_bind; [apply frames_alloc|]. intros a Ha.
  apply frames_draw_hands, Ha.
Qed.

End drawing_facts.

(** ** The operations of a computation, and the computation in one go *)

Lemma bind_ext {A B} (m m' : np.M A) (k k' : A -> np.M B) (σ : np.store) :
  m σ = m' σ -> (forall a σ1, k a σ1 = k' a σ1) ->
  np.bind m k σ = np.bind m' k' σ.
Proof.
  intros Hm Hk. unfold np.bind. rewrite Hm.
  destruct (m' σ) as [[a|] σ1]; [apply Hk|reflexivity].
Qed.

Lemma exec_pbind {A B} (p : np.prog A) (k : A -> np.prog B) (σ : np.store) :
  np.exec (np.pbind p k) σ = np.bind (np.exec p) (fun a => np.exec (k a)) σ.
Proof.
  revert σ. induction p as [a| |l c IH|a c IH|l f c IH]; intros σ;
    cbn [np.pbind np.exec].
  - reflexivity.
  - reflexivity.
  - unfold np.bind, np.load.
    destruct (σ !! l) as [img|]; [|reflexivity].
    cbv beta iota. rewrite IH. reflexivity.
  - unfold np.bind, np.alloc. cbv beta iota. rewrite IH. reflexivity.
  - unfold np.bind, np.modify.
    destruct (σ !! l ≫= f) as [a|]; [|reflexivity].
    cbv beta iota. rewrite IH. reflexivity.
Qed.

Lemma exec_plift {A} (o : option A) (σ : np.store) :
  np.exec (np.plift o) σ = np.lift o σ.
Proof. destruct o; reflexivity. Qed.

Lemma tstep_resume {A} (partial : np.image) (t : np.thread A) (σ : np.store) :
  let '(t', σ') := np.tstep partial t σ in
  (np.resume t' σ').1 = (np.resume t σ).1 /\
  ((np.resume t σ).1 <> None -> np.resume t' σ' = np.resume t σ).
Proof.
  destruct t as [[a| |l k|a k|l f k]|l [a|] k]; cbn [np.tstep np.resume np.exec].
  - split; reflexivity.
  - split; reflexivity.
  - unfold np.bind, np.load. destruct (σ !! l) as [img|]; split; reflexivity.
  - split; reflexivity.
  - unfold np.bind, np.modify. destruct (σ !! l ≫= f) as [a|].
    + rewrite list_insert_insert_eq. split; reflexivity.
    + cbn. split; [reflexivity|]. intros H. contradiction.
  - split; reflexivity.
  - split; reflexivity.
Qed.

Lemma confined_pbind {A B} (n : nat) (Q : A -> Prop) (R : B -> Prop)
    (p : np.prog A) (k : A -> np.prog B) :
  confined n Q p -> (forall a, Q a -> confined n R (k a)) ->
  confined n R (np.pbind p k).
Proof.
  intros Hp Hk. induction Hp as [a Ha| |l c _ IH|a c _ IH|l f c Hl _ IH];
    cbn [np.pbind].
  - apply Hk, Ha.
  - constructor.
  - constructor. exact IH.
  - constructor. exact IH.
  - constructor; [exact Hl|exact IH].
Qed.

Lemma confined_plift {A} (n : nat) (o : option A) :
  confined n (fun _ => True) (np.plift o).
Proof. destruct o; constructor. trivial. Qed.

Lemma tstep_confined {A} (n : nat) (post : A -> Prop) (partial : np.image)
    (t : np.thread A) (σ0 σ : np.store) :
  keeps n σ0 σ -> confined_thread n post t ->
  keeps n σ0 (np.tstep partial t σ).2 /\
  confined_thread n post (np.tstep partial t σ).1.
Proof.
  intros Hkeep Ht.
  assert (forall l a, (n <= l)%nat -> keeps n σ0 (<[l := a]> σ)) as Hins.
  { intros l a Hl. destruct Hkeep as [Hlen Hsame]. split.
    - rewrite length_insert. exact Hlen.
    - intros l' Hl'. rewrite list_lookup_insert_ne by lia. apply Hsame, Hl'. }
  destruct t as [p|l [a|] k]; cbn [confined_thread] in Ht.
  - destruct Ht as [a Ha| |l k Hk|a k Hk|l f k Hl Hk]; cbn [np.tstep fst snd].
    + split; [exact Hkeep|]. constructor. exact Ha.
    + split; [exact Hkeep|]. constructor.
    + destruct (σ !! l) as [img|]; (split; [exact Hkeep|]).
      * apply Hk.
      * constructor.
    + destruct Hkeep as [Hlen Hsame]. split; [split|].
      * rewrite length_app. lia.
      * intros l Hl. rewrite lookup_app_l by lia. apply Hsame, Hl.
      * apply Hk, Hlen.
    + split; [apply Hins, Hl|]. split; [exact Hl|exact Hk].
  - destruct Ht as [Hl Hk]. cbn [np.tstep fst snd].
    split; [apply Hins, Hl|exact Hk].
  - cbn [np.tstep fst snd]. split; [exact Hkeep|]. constructor.
Qed.

Section drawing_operations_facts.

Variable draw_landmarks : np.image -> list mp.landmark -> option np.image.
Variable putText : np.image -> string -> Z * Z -> option np.image.

Lemma exec_flip_ops (a : np.loc) (σ : np.store) :
  np.exec (utils.flip_ops a) σ = utils.flip a σ.
Proof.
  unfold utils.flip_ops, utils.flip. cbn [np.exec].
  apply bind_ext; [reflexivity|]. intros img σ1. reflexivity.
Qed.

Lemma exec_draw_hand_ops (h w : nat) (predictions : list string)
    (a : np.loc) (idx : nat) (hand : list mp.landmark) (σ : np.store) :
  np.exec (utils.draw_hand_ops draw_landmarks putText h w predictions a idx hand)
    σ
  = utils.draw_hand draw_landmarks putText h w predictions a idx hand σ.
Proof.
  unfold utils.draw_hand_ops, utils.draw_hand. cbn [np.pbind np.exec].
  apply bind_ext; [reflexivity|]. intros _ σ1.
  rewrite exec_pbind. apply bind_ext; [apply exec_plift|]. intros org σ2.
  rewrite exec_pbind. apply bind_ext; [apply exec_flip_ops|]. intros a1 σ3.
  rewrite exec_pbind. apply bind_ext; [apply exec_plift|]. intros label σ4.
  cbn [np.pbind np.exec].
  apply bind_ext; [reflexivity|]. intros _ σ5. apply exec_flip_ops.
Qed.

Lemma exec_draw_hands_ops (h w : nat) (predictions : list string)
    (hands : list (list mp.landmark)) (a : np.loc) (idx : nat) (σ : np.store) :
  np.exec (utils.draw_hands_ops draw_landmarks putText h w predictions a idx
             hands) σ
  = utils.draw_hands draw_landmarks putText h w predictions a idx hands σ.
Proof.
  revert a idx σ. induction hands as [|hand hands IH]; intros a idx σ.
  - reflexivity.
  - cbn [utils.draw_hands_ops utils.draw_hands]. rewrite exec_pbind.
    apply bind_ext; [apply exec_draw_hand_ops|]. intros a' σ1. apply IH.
Qed.

(** Run in one go, the operations of [draw_landmarks_on_image_ops] are
    [draw_landmarks_on_image]. *)
Lemma exec_draw_landmarks_on_image_ops (rgb_image : np.loc)
    (result : mp.HandLandmarkerResult) (predictions : list string)
    (σ : np.store) :
  np.exec (utils.draw_landmarks_on_image_ops draw_landmarks putText rgb_image
             result predictions) σ
  = utils.draw_landmarks_on_image draw_landmarks putText rgb_image result
      predictions σ.
Proof.
  unfold utils.draw_landmarks_on_image_ops, utils.draw_landmarks_on_image.
  cbn [np.exec]. apply bind_ext; [reflexivity|]. intros img σ1.
  destruct (np.shape img) as [[h w] c]. cbn [np.exec].
  apply bind_ext; [reflexivity|]. intros a σ2. apply exec_draw_hands_ops.
Qed.

Lemma confined_flip_ops (n : nat) (a : np.loc) :
  confined n (fun l => (n <= l)%nat) (utils.flip_ops a).
Proof.
  unfold utils.flip_ops. constructor. intros img. constructor.
  intros l Hl. constructor. exact Hl.
Qed.

Lemma confined_draw_hand_ops (n h w : nat) (predictions : list string)
    (a : np.loc) (idx : nat) (hand : list mp.landmark) :
  (n <= a)%nat ->
  confined n (fun l => (n <= l)%nat)
    (utils.draw_hand_ops draw_landmarks putText h w predictions a idx hand).
Proof.
  intros Ha. unfold utils.draw_hand_ops. cbn [np.pbind].
  constructor; [exact Ha|].
  eapply confined_pbind; [apply confined_plift|]. intros org _.
  eapply confined_pbind; [apply confined_flip_ops|]. intros a1 Ha1.
  eapply confined_pbind; [apply confined_plift|]. intros label _.
  cbn [np.pbind]. constructor; [exact Ha1|]. apply confined_flip_ops.
Qed.

Lemma confined_draw_hands_ops (n h w : nat) (predictions : list string)
    (hands : list (list mp.landmark)) (a : np.loc) (idx : nat) :
  (n <= a)%nat ->
  confined n (fun l => (n <= l)%nat)
    (utils.draw_hands_ops draw_landmarks putText h w predictions a idx hands).
Proof.
  revert a idx. induction hands as [|hand hands IH]; intros a idx Ha.
  - constructor. exact Ha.
  - cbn [utils.draw_hands_ops].
    eapply confined_pbind; [apply confined_draw_hand_ops, Ha|].
    intros a' Ha'. apply IH, Ha'.
Qed.

(** Every in-place operation of the rendering is on an array it allocated
    itself. *)
Lemma confined_draw_landmarks_on_image_ops (n : nat) (rgb_image : np.loc)
    (result : mp.HandLandmarkerResult) (predictions : list string) :
  confined n (fun l => (n <= l)%nat)
    (utils.draw_landmarks_on_image_ops draw_landmarks putText rgb_image
       result predictions).
Proof.
  unfold utils.draw_landmarks_on_image_ops. constructor. intros img.
  destruct (np.shape img) as [[h w] c]. constructor. intros a Ha.
  apply confined_draw_hands_ops, Ha.
Qed.

End drawing_operations_facts.

(** ** The callback, statement by statement *)

Section atomicity.

Variable scaler_transform : list Q -> option (list Q).
Variable classifier_predict : list Q -> option string.
Variable draw_landmarks : np.image -> list mp.landmark -> option np.image.
Variable putText : np.image -> string -> Z * Z -> option np.image.
Variable result : mp.HandLandmarkerResult.
Variable output_image : np.loc.
Variable g0 : demo.globals.
Variable σ0 : np.store.

Local Abbreviation predict_hand :=
  (demo.predict_hand scaler_transform classifier_predict).
Local Abbreviation predict_hands :=
  (demo.predict_hands scaler_transform classifier_predict).
Local Abbreviation print_result :=
  (demo.print_result scaler_transform classifier_predict draw_landmarks putText).
Local Abbreviation step :=
  (demo.step scaler_transform classifier_predict draw_landmarks putText
     result output_image).
Local Abbreviation reaches :=
  (demo.reaches scaler_transform classifier_predict draw_landmarks putText
     result output_image).
Local Abbreviation inv :=
  (callback_inv scaler_transform classifier_predict draw_landmarks putText
     result output_image g0 σ0).
Local Abbreviation render :=
  (utils.draw_landmarks_on_image draw_landmarks putText output_image result).
Local Abbreviation render_ops :=
  (utils.draw_landmarks_on_image_ops draw_landmarks putText output_image
     result).

Lemma reaches_trans (c1 c2 c3 : demo.config) :
  reaches c1 c2 -> reaches c2 c3 -> reaches c1 c3.
Proof.
  intros H12 H23. induction H12 as [c|c partial c' c'' Hs _ IH]; [exact H23|].
  eapply demo.reaches_step; [exact Hs|apply IH, H23].
Qed.

(** A hand that cannot be classified ends the callback with the
    predictions made so far and the frame published before. *)
Lemma print_result_failing_hand (g : demo.globals) :
  demo.drawn_frame g = demo.drawn_frame g0 ->
  predict_hands result (seq 0 (length (mp.hand_world_landmarks result))) []
  = (demo.predictions g, false) ->
  print_result result output_image g0 σ0 = (g, σ0).
Proof.
  intros Hd Hp. unfold demo.print_result. rewrite Hp.
  destruct g; cbn in *. rewrite Hd. reflexivity.
Qed.

Lemma print_result_failing_render (g : demo.globals) (σ : np.store) :
  demo.drawn_frame g = demo.drawn_frame g0 ->
  predict_hands result (seq 0 (length (mp.hand_world_landmarks result))) []
  = (demo.predictions g, true) ->
  render (demo.predictions g) σ0 = (None, σ) ->
  print_result result output_image g0 σ0 = (g, σ).
Proof.
  intros Hd Hp Hdraw. unfold demo.print_result. rewrite Hp, Hdraw.
  destruct g; cbn in *. rewrite Hd. reflexivity.
Qed.

Lemma print_result_rendered (g : demo.globals) (frame : np.loc)
    (σ : np.store) :
  predict_hands result (seq 0 (length (mp.hand_world_landmarks result))) []
  = (demo.predictions g, true) ->
  render (demo.predictions g) σ0 = (Some frame, σ) ->
  print_result result output_image g0 σ0
  = ({| demo.predictions := demo.predictions g;
        demo.drawn_frame := frame |}, σ).
Proof.
  intros Hp Hdraw. unfold demo.print_result. rewrite Hp, Hdraw. reflexivity.
Qed.

Lemma inv_step (partial : np.image) (c c' : demo.config) :
  inv c -> step partial c = Some c' -> inv c'.
Proof.
  destruct c as [[p g] σ]. unfold callback_inv, demo.step.
  destruct p as [|idx|t|frame|]; cbn zeta.
  - intros [-> ->] [= <-]. cbn. rewrite Nat.sub_0_r.
    split; [lia|]. repeat split.
  - intros (Hidx & -> & Hd & Hp). case_decide as Hlt.
    + replace (length (mp.hand_world_landmarks result) - idx)%nat
        with (S (length (mp.hand_world_landmarks result) - S idx)) in Hp by lia.
      cbn [seq demo.predict_hands] in Hp.
      destruct (predict_hand result idx) as [prediction|]; intros [= <-].
      * cbn. split; [lia|]. split; [reflexivity|]. split; [exact Hd|exact Hp].
      * split; [apply keeps_refl, le_n|]. left. symmetry.
        apply print_result_failing_hand; assumption.
    + intros [= <-].
      replace (length (mp.hand_world_landmarks result) - idx)%nat
        with 0%nat in Hp by lia.
      split; [exact Hd|]. split; [exact Hp|].
      split; [apply keeps_refl, le_n|]. split.
      * apply confined_draw_landmarks_on_image_ops.
      * unfold on_course. cbn [np.resume].
        rewrite exec_draw_landmarks_on_image_ops. split; reflexivity.
  - intros (Hd & Hp & Hkeep & Hconf & Hcourse) Hstep.
    assert ((let '(t', σ') := np.tstep partial t σ in
             Some (demo.Draw t', g, σ')) = Some c' ->
            callback_inv scaler_transform classifier_predict draw_landmarks
              putText result output_image g0 σ0 c') as Hgen.
    { intros Hs.
      pose proof (tstep_resume partial t σ) as Hres.
      pose proof (tstep_confined _ _ partial t σ0 σ Hkeep Hconf) as [Hk' Hc'].
      destruct (np.tstep partial t σ) as [t' σ']. injection Hs as <-.
      cbn [fst snd] in Hk', Hc'. destruct Hres as [Hres1 Hres2].
      destruct Hcourse as [Hco1 Hco2].
      unfold callback_inv. cbv beta iota zeta.
      split; [exact Hd|]. split; [exact Hp|]. split; [exact Hk'|].
      split; [exact Hc'|]. split.
      - rewrite Hres1. exact Hco1.
      - intros Hw. rewrite Hres2; [apply Hco2, Hw|]. rewrite Hco1. exact Hw. }
    destruct t as [[frame| |l k|a k|l f k]|l r k];
      try exact (Hgen Hstep).
    + injection Hstep as <-. destruct Hcourse as [Hco1 Hco2].
      cbn [np.resume np.exec] in Hco1, Hco2. unfold np.ret in Hco1, Hco2.
      cbn [fst] in Hco1.
      split; [exact Hd|]. split; [exact Hp|]. symmetry. apply Hco2.
      rewrite <- Hco1. discriminate.
    + injection Hstep as <-. split; [exact Hkeep|]. right. exact Hd.
  - intros (Hd & Hp & Hdraw) [= <-].
    split.
    + pose proof (frames_draw_landmarks_on_image draw_landmarks putText
                    (length σ0) output_image result (demo.predictions g)
                    σ0 (le_n _)) as [Hkeep _].
      rewrite Hdraw in Hkeep. exact Hkeep.
    + left. symmetry. apply print_result_rendered; assumption.
  - discriminate.
Qed.

Lemma inv_reaches (c c' : demo.config) : inv c -> reaches c c' -> inv c'.
Proof.
  intros Hc Hr. induction Hr as [c|c partial c1 c2 Hs _ IH]; [exact Hc|].
  apply IH, (inv_step partial c); assumption.
Qed.

(** The operations of [p] can be run to the end: the run ends about to
    return what [p] returns in one go, in the store [p] leaves. *)
Lemma thread_run (g : demo.globals) (p : np.prog np.loc) (σ : np.store) :
  reaches (demo.Draw (np.Run p), g, σ)
          (demo.Draw (np.Run (np.plift (np.exec p σ).1)), g, (np.exec p σ).2).
Proof.
  revert σ. induction p as [a| |l k IH|a k IH|l f k IH]; intros σ.
  - apply demo.reaches_refl.
  - apply demo.reaches_refl.
  - cbn [np.exec]. unfold np.bind, np.load.
    destruct (σ !! l) as [img|] eqn:Hl.
    + eapply demo.reaches_step with (partial := []).
      { cbn [demo.step np.tstep]. rewrite Hl. reflexivity. }
      apply IH.
    + eapply demo.reaches_step with (partial := []).
      { cbn [demo.step np.tstep]. rewrite Hl. reflexivity. }
      apply demo.reaches_refl.
  - cbn [np.exec]. unfold np.bind, np.alloc.
    eapply demo.reaches_step with (partial := []).
    { cbn [demo.step np.tstep]. reflexivity. }
    apply IH.
  - cbn [np.exec]. unfold np.bind, np.modify.
    eapply demo.reaches_step with (partial := default [] (σ !! l)).
    { cbn [demo.step np.tstep]. reflexivity. }
    assert (<[l := default [] (σ !! l)]> σ = σ) as ->.
    { destruct (σ !! l) as [a0|] eqn:Hl.
      - apply list_insert_id, Hl.
      - apply list_insert_ge, lookup_ge_None, Hl. }
    destruct (σ !! l ≫= f) as [a|].
    + eapply demo.reaches_step with (partial := []).
      { cbn [demo.step np.tstep]. reflexivity. }
      apply IH.
    + eapply demo.reaches_step with (partial := []).
      { cbn [demo.step np.tstep]. reflexivity. }
      apply demo.reaches_refl.
Qed.

Lemma draw_run (g : demo.globals) :
  demo.drawn_frame g = demo.drawn_frame g0 ->
  predict_hands result (seq 0 (length (mp.hand_world_landmarks result))) []
  = (demo.predictions g, true) ->
  reaches (demo.Draw (np.Run (render_ops (demo.predictions g))), g, σ0)
          (demo.Exit, (print_result result output_image g0 σ0).1,
           (print_result result output_image g0 σ0).2).
Proof.
  intros Hd Hp. eapply reaches_trans; [apply thread_run|].
  rewrite exec_draw_landmarks_on_image_ops.
  destruct (render (demo.predictions g) σ0) as [[frame|] σ] eqn:Hdraw;
    cbn [fst snd np.plift].
  - rewrite (print_result_rendered g frame σ Hp Hdraw).
    eapply demo.reaches_step with (partial := []); [reflexivity|].
    eapply demo.reaches_step with (partial := []); [reflexivity|].
    apply demo.reaches_refl.
  - rewrite (print_result_failing_render g σ Hd Hp Hdraw).
    eapply demo.reaches_step with (partial := []); [reflexivity|].
    apply demo.reaches_refl.
Qed.

Lemma loop_run (n idx : nat) (g : demo.globals) :
  (length (mp.hand_world_landmarks result) - idx)%nat = n ->
  inv (demo.Loop idx, g, σ0) ->
  reaches (demo.Loop idx, g, σ0)
          (demo.Exit, (print_result result output_image g0 σ0).1,
           (print_result result output_image g0 σ0).2).
Proof.
  revert idx g. induction n as [|n IH]; intros idx g Hn Hinv.
  - destruct Hinv as (Hidx & _ & Hd & Hp). rewrite Hn in Hp.
    eapply demo.reaches_step with (partial := []).
    { cbn [demo.step]. rewrite decide_False by lia. reflexivity. }
    apply draw_run; assumption.
  - pose proof (inv_step [] (demo.Loop idx, g, σ0)) as Hstep.
    specialize (fun c' => Hstep c' Hinv).
    destruct Hinv as (Hidx & _ & Hd & Hp). rewrite Hn in Hp.
    cbn [seq demo.predict_hands] in Hp.
    cbn [demo.step] in Hstep. rewrite decide_True in Hstep by lia.
    destruct (predict_hand result idx) as [prediction|] eqn:Hhand.
    + eapply demo.reaches_step with (partial := []).
      { cbn [demo.step]. rewrite decide_True by lia. rewrite Hhand.
        reflexivity. }
      apply IH; [lia|]. apply Hstep. reflexivity.
    + eapply demo.reaches_step with (partial := []).
      { cbn [demo.step]. rewrite decide_True by lia. rewrite Hhand.
        reflexivity. }
      rewrite (print_result_failing_hand g Hd Hp). apply demo.reaches_refl.
Qed.

(** Nothing the callback does writes to an array that existed when it
    started. *)
Lemma print_result_keeps :
  keeps (length σ0) σ0 (print_result result output_image g0 σ0).2.
Proof.
  unfold demo.print_result.
  destruct (predict_hands result _ _) as [predictions [|]];
    [|apply keeps_refl, le_n].
  pose proof (frames_draw_landmarks_on_image draw_landmarks putText
                (length σ0) output_image result predictions σ0 (le_n _))
    as [Hkeep _].
  destruct (utils.draw_landmarks_on_image _ _ _ _ _ _) as [[frame|] σ'];
    exact Hkeep.
Qed.

(** C1 (as amended).  The callback publishes in two separate stores: it
    rebinds [predictions] to an empty list and appends to it, and only at
    the end rebinds [drawn_frame].  Run from globals [g0] and store [σ0] one
    statement at a time, and inside the rendering call of line 37 one array
    operation at a time, a foreign call that draws in place being looked at
    also while it runs, with any contents in the array it draws on: the
    callback can run to the state [print_result] computes, and at every
    point of every run no array that existed before is written and the
    array [drawn_frame] refers to is either the one published before or the
    one of the final state, complete in both cases. *)
Theorem drawn_frame_is_prior_or_next :
  (demo.drawn_frame g0 < length σ0)%nat ->
  let final := print_result result output_image g0 σ0 in
  reaches (demo.Enter, g0, σ0) (demo.Exit, final.1, final.2) /\
  forall p g σ,
    reaches (demo.Enter, g0, σ0) (p, g, σ) ->
    (forall l, (l < length σ0)%nat -> σ !! l = σ0 !! l) /\
    (σ !! demo.drawn_frame g = σ0 !! demo.drawn_frame g0 \/
     σ !! demo.drawn_frame g = final.2 !! demo.drawn_frame final.1).
Proof.
  intros Hvalid final.
  assert (inv (demo.Enter, g0, σ0)) as Hinit by (split; reflexivity).
  split.
  - eapply demo.reaches_step with (partial := []); [reflexivity|].
    apply (loop_run _ 0 _ eq_refl), (inv_step [] _ _ Hinit). reflexivity.
  - intros p g σ Hr. apply (inv_reaches _ _ Hinit) in Hr.
    destruct p as [|idx|t|frame|];
      unfold callback_inv in Hr; cbv beta iota zeta in Hr.
    + destruct Hr as [-> ->]. split; [reflexivity|left; reflexivity].
    + destruct Hr as (_ & -> & -> & _).
      split; [reflexivity|left; reflexivity].
    + destruct Hr as (-> & _ & [_ Hkeep] & _).
      split; [exact Hkeep|]. left. apply Hkeep, Hvalid.
    + destruct Hr as (-> & _ & Hdraw).
      pose proof (frames_draw_landmarks_on_image draw_landmarks putText
                    (length σ0) output_image result (demo.predictions g)
                    σ0 (le_n _)) as [[_ Hkeep] _].
      rewrite Hdraw in Hkeep. split; [exact Hkeep|]. left.
      apply Hkeep, Hvalid.
    + destruct Hr as [[_ Hkeep] Hr]. split; [exact Hkeep|].
      destruct Hr as [Hr| ->].
      * right. subst final. rewrite <- Hr. reflexivity.
      * left. apply Hkeep, Hvalid.
Qed.

End atomicity.

(** ** Where the label goes *)


Lemma int_floor (q : Q) : 0 <= Qnum q -> num.int q = Qfloor q.
Proof.
  intros H. destruct q as [n d]. unfold num.int. cbn in *.
  apply Z.quot_div_nonneg; lia.
Qed.

Lemma int_ceiling (q : Q) : Qnum q <= 0 -> num.int q = Qceiling q.
Proof.
  intros H. destruct q as [n d]. unfold num.int, Qceiling. cbn in *.
  rewrite <- (Z.opp_involutive n) at 1.
  rewrite Z.quot_opp_l by lia. f_equal. apply Z.quot_div_nonneg; lia.
Qed.

(** [int] is monotone. *)
Lemma int_mono (a b : Q) : (a <= b)%Q -> num.int a <= num.int b.
Proof.
  intros Hab.
  destruct (Z_le_gt_dec 0 (Qnum a)) as [Ha|Ha].
  - assert (0 <= Qnum b) as Hb.
    { unfold Qle in Hab. destruct (Z_le_gt_dec 0 (Qnum b)); [assumption|nia]. }
    rewrite !int_floor by assumption. apply Qfloor_resp_le, Hab.
  - destruct (Z_le_gt_dec (Qnum b) 0) as [Hb|Hb].
    + rewrite !int_ceiling by lia. apply Qceiling_resp_le, Hab.
    + rewrite (int_ceiling a), (int_floor b) by lia.
      transitivity 0.
      * change 0 with (Qceiling 0). apply Qceiling_resp_le.
        unfold Qle. cbn. lia.
      * change 0 with (Qfloor 0). apply Qfloor_resp_le.
        unfold Qle. cbn. lia.
Qed.

Lemma qmax_ge (a b : Q) : (a <= num.qmax a b)%Q /\ (b <= num.qmax a b)%Q.
Proof.
  unfold num.qmax. destruct (Qle_bool b a) eqn:E.
  - split; [apply Qle_refl|apply Qle_bool_iff, E].
  - split; [|apply Qle_refl]. apply Qlt_le_weak, Qnot_le_lt.
    intros H. apply Qle_bool_iff in H. congruence.
Qed.

Lemma qmin_le (a b : Q) : (num.qmin a b <= a)%Q /\ (num.qmin a b <= b)%Q.
Proof.
  unfold num.qmin. destruct (Qle_bool a b) eqn:E.
  - split; [apply Qle_refl|apply Qle_bool_iff, E].
  - split; [|apply Qle_refl]. apply Qlt_le_weak, Qnot_le_lt.
    intros H. apply Qle_bool_iff in H. congruence.
Qed.

Lemma py_max_ge (l : list Q) (m : Q) :
  num.py_max l = Some m -> m ∈ l /\ forall v, v ∈ l -> (v <= m)%Q.
Proof.
  destruct l as [|a l]; [discriminate|]. intros [= <-].
  enough (forall a, (fold_left num.qmax l a = a \/ fold_left num.qmax l a ∈ l)
                    /\ (a <= fold_left num.qmax l a)%Q
                    /\ forall v, v ∈ l -> (v <= fold_left num.qmax l a)%Q)
    as H.
  { destruct (H a) as ([->|Hin] & Ha & Hl).
    - split; [left|]. intros v [->|Hv]%elem_of_cons; [apply Qle_refl|auto].
    - split; [right; exact Hin|].
      intros v [->|Hv]%elem_of_cons; [exact Ha|auto]. }
  clear a. induction l as [|b l IH]; intros a; cbn [fold_left].
  - split; [left; reflexivity|]. split; [apply Qle_refl|].
    intros v Hv. inversion Hv.
  - destruct (IH (num.qmax a b)) as (Hor & Hge & Hl).
    destruct (qmax_ge a b) as [Ha Hb]. split; [|split].
    + destruct Hor as [->|Hin]; [|right; right; exact Hin].
      unfold num.qmax. destruct (Qle_bool b a); [left|right; left]; reflexivity.
    + eapply Qle_trans; eassumption.
    + intros v [->|Hv]%elem_of_cons; [eapply Qle_trans; eassumption|auto].
Qed.

Lemma py_min_le (l : list Q) (m : Q) :
  num.py_min l = Some m -> m ∈ l /\ forall v, v ∈ l -> (m <= v)%Q.
Proof.
  destruct l as [|a l]; [discriminate|]. intros [= <-].
  enough (forall a, (fold_left num.qmin l a = a \/ fold_left num.qmin l a ∈ l)
                    /\ (fold_left num.qmin l a <= a)%Q
                    /\ forall v, v ∈ l -> (fold_left num.qmin l a <= v)%Q)
    as H.
  { destruct (H a) as ([->|Hin] & Ha & Hl).
    - split; [left|]. intros v [->|Hv]%elem_of_cons; [apply Qle_refl|auto].
    - split; [right; exact Hin|].
      intros v [->|Hv]%elem_of_cons; [exact Ha|auto]. }
  clear a. induction l as [|b l IH]; intros a; cbn [fold_left].
  - split; [left; reflexivity|]. split; [apply Qle_refl|].
    intros v Hv. inversion Hv.
  - destruct (IH (num.qmin a b)) as (Hor & Hge & Hl).
    destruct (qmin_le a b) as [Ha Hb]. split; [|split].
    + destruct Hor as [->|Hin]; [|right; right; exact Hin].
      unfold num.qmin. destruct (Qle_bool a b); [left|right; left]; reflexivity.
    + eapply Qle_trans; eassumption.
    + intros v [->|Hv]%elem_of_cons; [eapply Qle_trans; eassumption|auto].
Qed.

Lemma flip1_involutive (a : np.image) : np.flip1 (np.flip1 a) = a.
Proof.
  unfold np.flip1. rewrite map_map. rewrite <- (map_id a) at 2.
  apply map_ext. intros row. apply rev_involutive.
Qed.

(** Mirroring moves the pixel of column [j] to column [mirror w j]. *)
Lemma flip1_at (w : nat) (a : np.image) (i j : nat) :
  Forall (fun row => length row = w) a -> (j < w)%nat ->
  np.at_ (np.flip1 a) i j = np.at_ a i (Z.to_nat (mirror w (Z.of_nat j))).
Proof.
  intros Hw Hj. unfold np.at_, np.flip1, mirror.
  change (map (@rev np.pixel) a) with (@rev np.pixel <$> a).
  rewrite list_lookup_fmap.
  destruct (a !! i) as [row|] eqn:Hrow; [|reflexivity]. cbn.
  rewrite Forall_forall in Hw.
  assert (length row = w) as Hlen by (eapply Hw, list_elem_of_lookup_2, Hrow).
  rewrite rev_alt. change (rev_append row []) with (reverse row).
  rewrite reverse_lookup by lia. f_equal. lia.
Qed.

(** C9 (as amended).  For one hand the loop body draws the skeleton on the
    canvas, mirrors the canvas, draws the label there and mirrors the result
    back.  The label's origin is [MARGIN - 1] columns left of the mirrored
    column of the landmark of greatest [x], and [MARGIN] rows above the row
    of the landmark of smallest [y]; no landmark lies left of that column in
    the mirrored view nor above that row.  Mirrored once more, as the
    display does, the returned overlay is the mirrored skeleton with the
    text drawn on it unmirrored. *)
Theorem label_drawn_at_mirrored_corner
    (draw_landmarks : np.image -> list mp.landmark -> option np.image)
    (putText : np.image -> string -> Z * Z -> option np.image)
    (h w : nat) (predictions : list string) (a : np.loc) (idx : nat)
    (hand : list mp.landmark) (σ σ' : np.store) (r : np.loc) :
  utils.draw_hand draw_landmarks putText h w predictions a idx hand σ
  = (Some r, σ') ->
  exists (x y : Q) (label : string) (canvas skeleton text : np.image),
    num.py_max (map mp.x hand) = Some x /\
    num.py_min (map mp.y hand) = Some y /\
    predictions !! idx = Some label /\
    let column := num.int (x * inject_Z (Z.of_nat w)) in
    let row := num.int (y * inject_Z (Z.of_nat h)) in
    let org := (mirror w column - (utils.MARGIN - 1), row - utils.MARGIN) in
    σ !! a = Some canvas /\
    draw_landmarks canvas hand = Some skeleton /\
    putText (np.flip1 skeleton) label org = Some text /\
    σ' !! r = Some (np.flip1 text) /\
    np.flip1 (np.flip1 text) = text /\
    forall l, l ∈ hand ->
      mirror w column <= mirror w (num.int (mp.x l * inject_Z (Z.of_nat w))) /\
      row <= num.int (mp.y l * inject_Z (Z.of_nat h)).
Proof.
  unfold utils.draw_hand, utils.flip, utils.text_org, np.bind, np.modify,
    np.load, np.alloc.
  destruct (σ !! a) as [canvas|] eqn:Ha; [|discriminate]. cbn [mbind option_bind].
  destruct (draw_landmarks canvas hand) as [skeleton|] eqn:Hskel;
    [|discriminate].
  destruct (num.py_max (map mp.x hand)) as [x|] eqn:Hx; [|discriminate].
  destruct (num.py_min (map mp.y hand)) as [y|] eqn:Hy; [|discriminate].
  cbn [mbind option_bind np.lift np.ret].
  assert (a < length σ)%nat as Hlt by (eapply lookup_lt_Some, Ha).
  rewrite list_lookup_insert_eq by exact Hlt.
  destruct (predictions !! idx) as [label|] eqn:Hlabel; [|discriminate].
  cbn [np.lift np.ret]. rewrite length_insert.
  rewrite lookup_app_r, length_insert, Nat.sub_diag by (rewrite length_insert; lia).
  cbn [lookup list_lookup mbind option_bind].
  match goal with
  | |- context [putText ?i ?l ?o] =>
      destruct (putText i l o) as [text|] eqn:Htext; [|discriminate]
  end.
  rewrite list_lookup_insert_eq by (rewrite length_app, length_insert; simpl; lia).
  intros [= <- <-].
  exists x, y, label, canvas, skeleton, text. cbn zeta.
  repeat (split; [reflexivity || assumption|]).
  split; [|split; [|split; [apply flip1_involutive|]]].
  - rewrite <- Htext. f_equal. unfold mirror, utils.MARGIN. f_equal. lia.
  - rewrite lookup_app_r, Nat.sub_diag by lia. reflexivity.
  - intros l Hl.
    destruct (py_max_ge _ _ Hx) as [_ Hmax], (py_min_le _ _ Hy) as [_ Hmin].
    assert (mp.x l <= x)%Q as Hlx by (apply Hmax, list_elem_of_fmap_2, Hl).
    assert (y <= mp.y l)%Q as Hly by (apply Hmin, list_elem_of_fmap_2, Hl).
    assert (0 <= inject_Z (Z.of_nat w))%Q as Hw
      by (rewrite <- (Zle_Qle 0); lia).
    assert (0 <= inject_Z (Z.of_nat h))%Q as Hh
      by (rewrite <- (Zle_Qle 0); lia).
    split.
    + unfold mirror.
      pose proof (int_mono _ _ (Qmult_le_compat_r _ _ _ Hlx Hw)). lia.
    + apply int_mono, Qmult_le_compat_r; assumption.
Qed.

(** ** The throttle of the capture loop *)

Lemma capture_timestamp (interval fps : Z) (n : nat) :
  demo.timestamp (demo.capture interval fps n) = Z.of_nat n * fps.
Proof.
  induction n as [|n IH]; [reflexivity|].
  cbn [demo.capture]. unfold demo.throttle. rewrite IH.
  destruct (_ <? _); cbn; lia.
Qed.

(** Every submission comes more than [interval] after the one before, and
    the last one is never in the future. *)
Lemma capture_spacing (interval fps : Z) (n : nat) :
  0 <= interval -> 0 <= fps ->
  let s := demo.capture interval fps n in
  Z.of_nat (length (demo.submitted s)) * (interval + 1) <= demo.show_timestamp s
  /\ demo.show_timestamp s <= demo.timestamp s.
Proof.
  intros Hi Hf. induction n as [|n [IH1 IH2]]; [cbn; lia|].
  cbn [demo.capture]. unfold demo.throttle.
  destruct (Z.ltb_spec interval
              (demo.timestamp (demo.capture interval fps n) + fps
               - demo.show_timestamp (demo.capture interval fps n)));
    cbn [demo.submitted demo.show_timestamp demo.timestamp length]; lia.
Qed.

(** C6.  With a minimum gap [G > 0] and a step that does not go
    backwards, after [n] frames, the timestamp having advanced by [N], the
    loop has called [detect_async] at most [N / G + 1] times. *)
Theorem submissions_bounded (G fps : Z) (n : nat) :
  0 < G -> 0 <= fps ->
  let s := demo.capture G fps n in
  let N := demo.timestamp s in
  Z.of_nat (length (demo.submitted s)) <= N / G + 1.
Proof.
  intros HG Hf s N.
  destruct (capture_spacing G fps n) as [H1 H2]; [lia|lia|].
  fold s in H1, H2. fold N in H2.
  assert (Z.of_nat (length (demo.submitted s)) <= N / G); [|lia].
  apply Z.div_le_lower_bound; [exact HG|]. nia.
Qed.

(** With a step above the minimum gap the loop has submitted at every
    frame. *)
Lemma capture_every_frame (interval fps : Z) (n : nat) :
  interval < fps ->
  demo.show_timestamp (demo.capture interval fps n)
  = demo.timestamp (demo.capture interval fps n) /\
  demo.submitted (demo.capture interval fps n)
  = rev (map (fun k => Z.of_nat k * fps) (seq 1 n)).
Proof.
  intros Hlt. induction n as [|n [IHs IHl]]; [split; reflexivity|].
  cbn [demo.capture]. unfold demo.throttle. rewrite IHs.
  replace (_ + fps - _) with fps by lia.
  rewrite (proj2 (Z.ltb_lt _ _) Hlt).
  cbn [demo.show_timestamp demo.timestamp demo.submitted].
  split; [reflexivity|].
  rewrite seq_S, map_app, rev_app_distr, IHl, capture_timestamp.
  cbn [map rev app]. f_equal. lia.
Qed.

Lemma fps_of_integer (k : Z) :
  0 < k -> demo.fps (inject_Z k) = Some (1000 / k).
Proof.
  intros Hk. unfold demo.fps.
  destruct (Qeq_bool (inject_Z k) 0) eqn:E.
  - apply Qeq_bool_eq in E. unfold Qeq in E. cbn in E. lia.
  - f_equal. unfold num.floor. symmetry. apply (Zdiv_Qdiv 1000 k).
Qed.

(** C10.  When the step [floor(1000 / cam_fps)] is above [INTERVAL = 10]
    the loop has submitted every frame it read, each with its own
    timestamp; a positive frame rate of at most 90 gives such a step. *)
Theorem every_frame_submitted (cam_fps : Q) (step : Z) (n : nat) :
  demo.fps cam_fps = Some step ->
  ((0 < cam_fps)%Q /\ (cam_fps <= 90)%Q -> demo.INTERVAL < step) /\
  (demo.INTERVAL < step ->
   demo.submitted (demo.capture demo.INTERVAL step n)
   = rev (map (fun k => Z.of_nat k * step) (seq 1 n)) /\
   length (demo.submitted (demo.capture demo.INTERVAL step n)) = n).
Proof.
  intros Hfps. split.
  - intros [Hpos Hle]. unfold demo.fps in Hfps.
    destruct (Qeq_bool cam_fps 0); [discriminate|].
    injection Hfps as <-. unfold demo.INTERVAL, num.floor.
    apply Z.lt_le_trans with 11; [reflexivity|].
    change (Qfloor 11 <= Qfloor (1000 / cam_fps)). apply Qfloor_resp_le.
    apply Qle_shift_div_l; [exact Hpos|].
    apply Qle_trans with (11 * 90)%Q; [|unfold Qle; cbn; lia].
    apply Qmult_le_l; [reflexivity|exact Hle].
  - intros Hlt. destruct (capture_every_frame demo.INTERVAL step n Hlt) as [_ E].
    split; [exact E|]. rewrite E, length_rev, length_map, length_seq.
    reflexivity.
Qed.

(** ** The dataset split *)

Lemma train_size_div (n : nat) : split.train_size n = (n * 8 / 10)%nat.
Proof.
  unfold split.train_size, num.int. cbn [Qnum Qden Qmult inject_Z].
  rewrite Z.quot_div_nonneg by lia.
  change (Z.pos (1 * 10)) with (Z.of_nat 10).
  change 8 with (Z.of_nat 8).
  rewrite <- Nat2Z.inj_mul, <- Nat2Z.inj_div. apply Nat2Z.id.
Qed.

Lemma train_size_le (n : nat) : (split.train_size n <= n)%nat.
Proof.
  rewrite train_size_div. apply Nat.Div0.div_le_upper_bound. lia.
Qed.

Lemma snd_range_index (cells : list (list string)) :
  (split.range_index cells).*2 = cells.
Proof.
  unfold split.range_index. rewrite fmap_imap.
  change (fun n : nat => snd ∘ (fun r => (n, r)))
    with (@const (list string -> list string) nat id).
  rewrite imap_const. apply list_fmap_id.
Qed.

Lemma fst_range_index (cells : list (list string)) :
  (split.range_index cells).*1 = seq 0 (length cells).
Proof.
  unfold split.range_index. rewrite fmap_imap.
  change (fun n : nat => fst ∘ (fun r : list string => (n, r)))
    with (fun (n : nat) (_ : list string) => id n).
  rewrite imap_seq_0. apply list_fmap_id.
Qed.

Lemma omap_lookup_seq {A} (l : list A) :
  omap (fun pos => l !! pos) (seq 0 (length l)) = l.
Proof.
  induction l as [|a l IH] using rev_ind; [reflexivity|].
  rewrite length_app, Nat.add_comm. cbn [length Nat.add].
  rewrite seq_S, omap_app. cbn [seq omap list_omap Nat.add].
  rewrite lookup_app_r, Nat.sub_diag by lia. cbn. f_equal.
  rewrite <- IH at 2. apply list_omap_ext.
  apply Forall2_same_length_lookup_2; [reflexivity|].
  intros i x y Hx Hy. rewrite Hx in Hy. injection Hy as <-.
  apply lookup_seq in Hx as [-> Hi]. cbn. apply lookup_app_l. lia.
Qed.

Lemma omap_take_total {A B} (f : A -> option B) (k : nat) (l : list A) :
  Forall (fun a => is_Some (f a)) l ->
  omap f (take k l) = take k (omap f l).
Proof.
  intros Hl. revert k. induction Hl as [|a l [b Hb] _ IH]; intros [|k];
    try reflexivity.
  cbn [take omap list_omap]. rewrite Hb. cbn [take]. f_equal. apply IH.
Qed.

Lemma filter_all {A} (P : A -> Prop) `{forall x, Decision (P x)} (l : list A) :
  Forall P l -> filter P l = l.
Proof.
  induction 1 as [|a l Ha _ IH]; [reflexivity|].
  rewrite filter_cons_True by exact Ha. f_equal. exact IH.
Qed.

Lemma filter_none {A} (P : A -> Prop) `{forall x, Decision (P x)} (l : list A) :
  Forall (fun a => ~ P a) l -> filter P l = [].
Proof.
  induction 1 as [|a l Ha _ IH]; [reflexivity|].
  rewrite filter_cons_False by exact Ha. exact IH.
Qed.

(** Filtering out the labels of a prefix leaves the rest, when labels are
    unique. *)
Lemma filter_not_taken (l1 l2 : list split.row) :
  NoDup (l1 ++ l2).*1 ->
  filter (fun r => r.1 ∉ l1.*1) (l1 ++ l2) = l2.
Proof.
  rewrite fmap_app. intros (_ & Hdisj & _)%NoDup_app.
  rewrite filter_app, filter_none, filter_all; [reflexivity| |].
  - apply Forall_forall. intros r Hr Hin.
    apply (Hdisj r.1 Hin), list_elem_of_fmap_2, Hr.
  - apply Forall_forall. intros r Hr Hnot. apply Hnot.
    apply list_elem_of_fmap_2, Hr.
Qed.

Section sampling_facts.

Variable permutation : nat -> list nat.
Hypothesis permutation_spec : forall n, permutation n ≡ₚ seq 0 n.

Local Abbreviation sample := (split.sample permutation).
Local Abbreviation shuffled := (split.shuffled permutation).


Lemma shuffled_perm (frame : list split.row) : shuffled frame ≡ₚ frame.
Proof.
  unfold split.shuffled. rewrite (permutation_spec (length frame)).
  rewrite omap_lookup_seq. reflexivity.
Qed.

Lemma sample_take (k : nat) (frame : list split.row) :
  sample k frame = take k (shuffled frame).
Proof.
  unfold split.sample, split.shuffled. apply omap_take_total.
  apply Forall_forall. intros pos Hpos.
  rewrite (permutation_spec (length frame)) in Hpos.
  apply elem_of_seq in Hpos. apply lookup_lt_is_Some. lia.
Qed.

Lemma sample_all (frame : list split.row) :
  sample (length frame) frame ≡ₚ frame.
Proof.
  rewrite sample_take, take_ge; [apply shuffled_perm|].
  rewrite (Permutation_length (shuffled_perm frame)). reflexivity.
Qed.

Lemma sample_length (k : nat) (frame : list split.row) :
  (k <= length frame)%nat -> length (sample k frame) = k.
Proof.
  intros Hk. rewrite sample_take, length_take.
  rewrite (Permutation_length (shuffled_perm frame)). lia.
Qed.

(** Dropping the labels of a sample leaves the rows that were not drawn. *)
Lemma drop_sample (k : nat) (frame : list split.row) :
  NoDup frame.*1 ->
  split.drop_labels (sample k frame).*1 frame ≡ₚ drop k (shuffled frame).
Proof.
  intros Hnd. unfold split.drop_labels. rewrite sample_take.
  transitivity (filter (fun r : split.row => r.1 ∉ (take k (shuffled frame)).*1)
                       (shuffled frame)).
  { apply filter_Permutation. symmetry. apply shuffled_perm. }
  assert (NoDup (shuffled frame).*1) as Hnd'.
  { eapply NoDup_Permutation_proper; [|exact Hnd].
    apply fmap_Permutation, shuffled_perm. }
  rewrite <- (take_drop k (shuffled frame)) in Hnd'.
  pose proof (filter_not_taken _ _ Hnd') as E. rewrite take_drop in E.
  rewrite E. reflexivity.
Qed.

(** Lines 29-31: the two samples of a frame share it out. *)
Lemma train_test_partition (k : nat) (frame : list split.row) :
  NoDup frame.*1 -> (k <= length frame)%nat ->
  let train_sample := sample k frame in
  let remaining := split.drop_labels train_sample.*1 frame in
  let test_sample := sample (length remaining) remaining in
  train_sample ++ test_sample ≡ₚ frame /\
  length train_sample = k /\ length test_sample = (length frame - k)%nat.
Proof.
  intros Hnd Hk train_sample remaining test_sample.
  assert (test_sample ≡ₚ drop k (shuffled frame)) as Htest.
  { unfold test_sample. rewrite sample_all. apply drop_sample, Hnd. }
  split; [|split].
  - rewrite Htest. unfold train_sample. rewrite sample_take, take_drop.
    apply shuffled_perm.
  - apply sample_length, Hk.
  - rewrite (Permutation_length Htest), length_drop.
    rewrite (Permutation_length (shuffled_perm frame)). reflexivity.
Qed.

End sampling_facts.

Lemma letters_NoDup : NoDup split.letters.
Proof. apply (bool_decide_unpack (NoDup split.letters)). vm_compute. exact I. Qed.

Lemma cell_letter (r : split.row) :
  split.cell split.expected_cols "letter" r = r.2 !! 0%nat.
Proof. reflexivity. Qed.

Lemma filter_snd_length (letter : string) (l : list split.row) :
  length (filter (fun r : split.row => r.2 !! 0%nat = Some letter) l)
  = length (filter (fun c : list string => c !! 0%nat = Some letter) l.*2).
Proof.
  induction l as [|r l IH]; [reflexivity|]. cbn [fmap list_fmap].
  destruct (decide (r.2 !! 0%nat = Some letter)) as [Hp|Hp].
  - rewrite !filter_cons_True by exact Hp. cbn. f_equal. exact IH.
  - rewrite !filter_cons_False by exact Hp. exact IH.
Qed.

(** Rows of one letter and rows of other letters add up. *)
Lemma filter_letters_cons (letter : string) (rest : list string)
    (rows : list split.row) :
  letter ∉ rest ->
  filter (fun r : split.row => r.2 !! 0%nat = Some letter) rows ++
  filter (fun r : split.row => r.2 !! 0%nat ∈ Some <$> rest) rows
  ≡ₚ filter (fun r : split.row => r.2 !! 0%nat ∈ Some <$> letter :: rest) rows.
Proof.
  intros Hfresh. induction rows as [|r rows IH]; [reflexivity|].
  destruct (decide (r.2 !! 0%nat = Some letter)) as [Hl|Hl].
  - rewrite (filter_cons_True (fun r : split.row => r.2 !! 0%nat = Some letter))
      by exact Hl.
    rewrite (filter_cons_False
               (fun r : split.row => r.2 !! 0%nat ∈ Some <$> rest)).
    2:{ rewrite Hl. intros (l & [= <-] & Hin)%list_elem_of_fmap. auto. }
    rewrite (filter_cons_True
               (fun r : split.row => r.2 !! 0%nat ∈ Some <$> letter :: rest)).
    2:{ rewrite Hl. left. }
    cbn [app]. apply perm_skip, IH.
  - rewrite (filter_cons_False
               (fun r : split.row => r.2 !! 0%nat = Some letter)) by exact Hl.
    destruct (decide (r.2 !! 0%nat ∈ Some <$> rest)) as [Hr|Hr].
    + rewrite (filter_cons_True
                 (fun r : split.row => r.2 !! 0%nat ∈ Some <$> rest))
        by exact Hr.
      rewrite (filter_cons_True
                 (fun r : split.row => r.2 !! 0%nat ∈ Some <$> letter :: rest)).
      2:{ right. exact Hr. }
      rewrite <- Permutation_middle. apply perm_skip, IH.
    + rewrite (filter_cons_False
                 (fun r : split.row => r.2 !! 0%nat ∈ Some <$> rest))
        by exact Hr.
      rewrite (filter_cons_False
                 (fun r : split.row => r.2 !! 0%nat ∈ Some <$> letter :: rest)).
      2:{ intros [E|Hin]%elem_of_cons; auto. }
      exact IH.
Qed.

Lemma filter_listed (rows : list split.row) :
  filter (fun r : split.row => r.2 !! 0%nat ∈ Some <$> split.letters) rows
  = filter (fun r : split.row => split.listed r.2) rows.
Proof.
  apply list_filter_iff. intros r. unfold split.listed.
  destruct (r.2 !! 0%nat) as [l|].
  - split; [intros (l' & [= <-] & Hin)%list_elem_of_fmap; exact Hin|].
    intros Hin. apply list_elem_of_fmap_2, Hin.
  - split; [intros (l' & [=] & _)%list_elem_of_fmap|contradiction].
Qed.

Section script_facts.

Variable permutation : nat -> list nat.
Hypothesis permutation_spec : forall n, permutation n ≡ₚ seq 0 n.
Variable input : split.csv.
Hypothesis header_ok : split.header input = split.expected_cols.

Local Abbreviation df := (split.read_csv input).
Local Abbreviation split_letter := (split.split_letter permutation df).
Local Abbreviation letter_data letter :=
  (filter (fun r : split.row => r.2 !! 0%nat = Some letter) (split.rows df)).

Lemma index_NoDup (letter : string) : NoDup (letter_data letter).*1.
Proof.
  apply sublist_NoDup with (split.rows df).*1.
  - cbn. rewrite fst_range_index. apply NoDup_seq.
  - apply fmap_sublist, sublist_filter.
Qed.

Lemma split_letter_partition (letter : string) :
  (split_letter letter).1 ++ (split_letter letter).2 ≡ₚ letter_data letter /\
  length (split_letter letter).1
  = split.train_size (length (letter_data letter)) /\
  length (split_letter letter).2
  = (length (letter_data letter)
     - split.train_size (length (letter_data letter)))%nat.
Proof.
  unfold split.split_letter. cbn [fst snd split.columns split.read_csv].
  rewrite header_ok.
  change (filter (fun r : split.row =>
                    split.cell split.expected_cols "letter" r = Some letter)
                 (split.rows df))
    with (letter_data letter).
  apply (train_test_partition permutation permutation_spec).
  - apply index_NoDup.
  - apply train_size_le.
Qed.

Lemma split_letter_rows (letter : string) (r : split.row) :
  r ∈ (split_letter letter).1 ++ (split_letter letter).2 ->
  r.2 !! 0%nat = Some letter.
Proof.
  rewrite (proj1 (split_letter_partition letter)).
  intros [H _]%list_elem_of_filter. exact H.
Qed.

(** Lines 26-34 over a duplicate-free list of letters. *)
Lemma parts_partition (ls : list string) :
  NoDup ls ->
  concat (split_letter <$> ls).*1 ++ concat (split_letter <$> ls).*2
  ≡ₚ filter (fun r : split.row => r.2 !! 0%nat ∈ Some <$> ls) (split.rows df).
Proof.
  induction 1 as [|letter ls Hfresh _ IH].
  - cbn. symmetry. apply Permutation_nil_r, filter_none.
    apply Forall_forall. intros r _ Hin. inversion Hin.
  - cbn [fmap list_fmap concat].
    rewrite <- (filter_letters_cons letter ls _ Hfresh), <- IH.
    rewrite <- (proj1 (split_letter_partition letter)).
    rewrite <- !app_assoc. apply Permutation_app_head.
    rewrite !app_assoc. apply Permutation_app_tail, Permutation_app_comm.
Qed.

(** How many rows of [letter] the samples drawn for [ls] hold. *)
Lemma parts_count (letter : string) (ls : list string) :
  NoDup ls ->
  let hits (l : list split.row) :=
    length (filter (fun r : split.row => r.2 !! 0%nat = Some letter) l) in
  hits (concat (split_letter <$> ls).*1)
  = (if decide (letter ∈ ls) then length (split_letter letter).1 else 0%nat) /\
  hits (concat (split_letter <$> ls).*2)
  = (if decide (letter ∈ ls) then length (split_letter letter).2 else 0%nat).
Proof.
  intros Hnd hits. subst hits. cbn beta.
  induction Hnd as [|l ls Hfresh _ [IH1 IH2]].
  - split; reflexivity.
  - cbn [fmap list_fmap concat]. rewrite !filter_app, !length_app, IH1, IH2.
    destruct (decide (letter = l)) as [<-|Hne].
    + destruct (decide (letter ∈ letter :: ls)) as [_|Hn];
        [|exfalso; apply Hn; left].
      destruct (decide (letter ∈ ls)) as [Hin|_]; [contradiction|].
      rewrite !filter_all, !Nat.add_0_r; [split; reflexivity| |];
        apply Forall_forall; intros r Hr; apply split_letter_rows;
        apply elem_of_app; [right|left]; exact Hr.
    + rewrite !filter_none; cbn [length Nat.add].
      * destruct (decide (letter ∈ ls)) as [Hin|Hout];
          destruct (decide (letter ∈ l :: ls)) as [Hin'|Hout'];
          try (split; reflexivity).
        -- exfalso. apply Hout'. right. exact Hin.
        -- exfalso. apply elem_of_cons in Hin' as [E|Hin']; auto.
      * apply Forall_forall. intros r Hr E.
        rewrite (split_letter_rows l r) in E by (apply elem_of_app; right; exact Hr).
        congruence.
      * apply Forall_forall. intros r Hr E.
        rewrite (split_letter_rows l r) in E by (apply elem_of_app; left; exact Hr).
        congruence.
Qed.

End script_facts.

Lemma map_fmap {A B} (f : A -> B) (l : list A) : map f l = f <$> l.
Proof. reflexivity. Qed.

Lemma sample_snd (permutation : nat -> list nat) (k : nat)
    (frame1 frame2 : list split.row) :
  frame1.*2 = frame2.*2 ->
  (split.sample permutation k frame1).*2
  = (split.sample permutation k frame2).*2.
Proof.
  intros E. unfold split.sample.
  assert (length frame1 = length frame2) as ->
    by (rewrite <- (length_fmap snd frame1), E; apply length_fmap).
  rewrite !list_fmap_omap. apply list_omap_ext, Forall2_same_length_lookup_2;
    [reflexivity|].
  intros i p q Hp Hq. rewrite Hp in Hq. injection Hq as <-.
  rewrite <- !list_lookup_fmap, E. reflexivity.
Qed.

Lemma concat_shuffle_records (permutation : nat -> list nat)
    (cols : list string) (frames : list (list split.row)) :
  split.records (split.to_csv (split.concat_shuffle permutation cols frames))
  = (split.sample permutation (length (concat frames)) (concat frames)).*2.
Proof.
  unfold split.concat_shuffle, split.to_csv. cbn [split.records split.rows].
  rewrite !map_fmap, snd_range_index.
  unfold split.range_index at 1. rewrite length_imap, length_fmap.
  apply sample_snd, snd_range_index.
Qed.

Lemma count_letter_perm (letter : string) (f : split.csv) (l : list split.row) :
  split.records f ≡ₚ l.*2 ->
  split.count_letter letter f
  = length (filter (fun r : split.row => r.2 !! 0%nat = Some letter) l).
Proof.
  intros Hp. unfold split.count_letter.
  transitivity (length (filter (fun c : list string => c !! 0%nat = Some letter)
                               l.*2)).
  - apply Permutation_length, filter_Permutation, Hp.
  - symmetry. apply filter_snd_length.
Qed.

(** C7 (as amended).  On a table with the expected header the script
    writes [train.csv] then [test.csv].  The records whose letter is one of
    the 25 symbols of [letters] are shared out between the two files, each
    record position going to exactly one of them; records of any other
    letter go to neither.  Of the [n] records of a listed letter,
    [int(n * 0.8)] go to the training file and the rest to the test file:
    80 and 20 of 100 records of "A". *)
Theorem split_partitions_listed_letters (permutation : nat -> list nat)
    (input : split.csv) :
  (forall n, permutation n ≡ₚ seq 0 n) ->
  split.header input = split.expected_cols ->
  exists train test : split.csv,
    split.script permutation input
    = (Some tt, [("train.csv"%string, train); ("test.csv"%string, test)]) /\
    (exists tr te : list split.row,
       split.records train = tr.*2 /\ split.records test = te.*2 /\
       tr ++ te ≡ₚ filter (fun r : split.row => split.listed r.2)
                     (split.range_index (split.records input))) /\
    (forall letter, letter ∈ split.letters ->
       let n := split.count_letter letter input in
       split.count_letter letter train = split.train_size n /\
       split.count_letter letter test = (n - split.train_size n)%nat) /\
    (forall letter, letter ∉ split.letters ->
       split.count_letter letter train = 0%nat /\
       split.count_letter letter test = 0%nat) /\
    (split.count_letter "A" input = 100%nat ->
     split.count_letter "A" train = 80%nat /\
     split.count_letter "A" test = 20%nat).
Proof.
  intros Hperm Hheader.
  pose (df := split.read_csv input).
  pose (parts := split.split_letter permutation df <$> split.letters).
  pose (tr := split.sample permutation (length (concat parts.*1))
                (concat parts.*1)).
  pose (te := split.sample permutation (length (concat parts.*2))
                (concat parts.*2)).
  assert (tr ≡ₚ concat parts.*1) as Htr by apply (sample_all _ Hperm).
  assert (te ≡ₚ concat parts.*2) as Hte by apply (sample_all _ Hperm).
  assert (forall letter,
            length (filter (fun r : split.row => r.2 !! 0%nat = Some letter)
                           (split.rows df))
            = split.count_letter letter input) as Hcount.
  { intros letter. unfold split.count_letter.
    rewrite filter_snd_length. subst df. cbn [split.rows split.read_csv].
    rewrite snd_range_index. reflexivity. }
  assert (forall letter,
            split.count_letter letter
              (split.to_csv (split.concat_shuffle permutation
                               (split.columns df) parts.*1))
            = (if decide (letter ∈ split.letters)
               then split.train_size (split.count_letter letter input)
               else 0%nat) /\
            split.count_letter letter
              (split.to_csv (split.concat_shuffle permutation
                               (split.columns df) parts.*2))
            = (if decide (letter ∈ split.letters)
               then (split.count_letter letter input
                     - split.train_size (split.count_letter letter input))%nat
               else 0%nat)) as Hcounts.
  { intros letter.
    destruct (parts_count permutation Hperm input Hheader letter
                split.letters letters_NoDup) as [C1 C2].
    destruct (split_letter_partition permutation Hperm input Hheader letter)
      as (_ & L1 & L2).
    split.
    - rewrite (count_letter_perm letter _ (concat parts.*1)).
      + subst parts df. rewrite C1, L1, Hcount. reflexivity.
      + rewrite concat_shuffle_records. apply fmap_Permutation, Htr.
    - rewrite (count_letter_perm letter _ (concat parts.*2)).
      + subst parts df. rewrite C2, L2, Hcount. reflexivity.
      + rewrite concat_shuffle_records. apply fmap_Permutation, Hte. }
  eexists _, _. split; [|split; [|split; [|split]]].
  - unfold split.script. rewrite decide_True by exact Hheader. reflexivity.
  - exists tr, te. split; [apply concat_shuffle_records|].
    split; [apply concat_shuffle_records|].
    rewrite Htr, Hte. subst parts df.
    rewrite (parts_partition permutation Hperm input Hheader _ letters_NoDup).
    rewrite filter_listed. reflexivity.
  - intros letter Hin n. destruct (Hcounts letter) as [C1 C2].
    rewrite decide_True in C1, C2 by exact Hin. split; assumption.
  - intros letter Hout. destruct (Hcounts letter) as [C1 C2].
    rewrite decide_False in C1, C2 by exact Hout. split; assumption.
  - intros H100. destruct (Hcounts "A"%string) as [C1 C2].
    rewrite H100 in C1, C2. split; [exact C1|exact C2].
Qed.

(** ** The compositor on sample images *)

(** [add_transparent_image_composites] on a background and an overlay of
    two pixels. *)
Lemma add_transparent_image_composites_witness :
  np.has_shape 1 2 3 fixtures.background /\
  np.has_shape 1 2 3 fixtures.foreground /\
  exists (result : np.loc) (σ' : np.store) (out : np.image),
    utils.add_transparent_image 0 1 [fixtures.background; fixtures.foreground]
    = (Some result, σ') /\
    σ' !! result = Some out /\
    np.at_ out 0 0 = Some [1; 2; 3] /\ np.at_ out 0 1 = Some [0; 7; 0].
Proof.
  assert (np.has_shape 1 2 3 fixtures.background) as Sb
    by (split; [reflexivity|repeat constructor; lia]).
  assert (np.has_shape 1 2 3 fixtures.foreground) as Sf
    by (split; [reflexivity|repeat constructor; lia]).
  split; [exact Sb|]. split; [exact Sf|].
  destruct (add_transparent_image_composites 1 2
              [fixtures.background; fixtures.foreground] 0 1
              fixtures.background fixtures.foreground
              eq_refl eq_refl Sb Sf)
    as (result & σ' & out & Hrun & _ & Hout & _ & _ & Hpx).
  exists result, σ', out. split; [exact Hrun|]. split; [exact Hout|].
  split.
  - exact (Hpx 0%nat 0%nat [1; 2; 3] [0; 0; 0] eq_refl eq_refl).
  - exact (Hpx 0%nat 1%nat [4; 5; 6] [0; 7; 0] eq_refl eq_refl).
Defined.

(** [zero_overlay_leaves_frame] on a result without hands. *)
Lemma zero_overlay_leaves_frame_witness :
  exists (annotated : np.loc) (σ1 : np.store) (out : np.loc) (σ2 : np.store),
    utils.draw_landmarks_on_image fixtures.draw_landmarks fixtures.putText
      1 fixtures.no_hands [] [fixtures.background; fixtures.foreground]
    = (Some annotated, σ1) /\
    utils.add_transparent_image 0 annotated σ1 = (Some out, σ2) /\
    σ2 !! out = Some fixtures.background.
Proof.
  destruct (zero_overlay_leaves_frame fixtures.draw_landmarks fixtures.putText
              1 2 [fixtures.background; fixtures.foreground] 0 1
              fixtures.background fixtures.foreground fixtures.no_hands [])
    as (_ & annotated & σ1 & canvas & out & σ2 & H1 & _ & _ & H2 & H3).
  - reflexivity.
  - reflexivity.
  - split; [reflexivity|repeat constructor; lia].
  - split; [reflexivity|repeat constructor; lia].
  - reflexivity.
  - exists annotated, σ1, out, σ2. repeat split; assumption.
Defined.

(** ** The callback on sample results *)

(** [data_row_length] on a hand of 21 landmarks. *)
Lemma data_row_length_witness :
  length (demo.data_row 1 fixtures.hand21) = 64%nat.
Proof.
  apply (proj2 (proj1 (proj2 (data_row_length 1 fixtures.hand21)))).
  reflexivity.
Defined.

(** C2 as stated fails: a hand of one landmark is encoded, as a row of four
    values, and classified. *)
Lemma short_hand_is_encoded :
  length [fixtures.palm] <> 21%nat /\
  demo.data_row 1 [fixtures.palm] = [1; 1 # 2; 1 # 2; 0]%Q /\
  demo.predict_hand fixtures.scaler fixtures.classifier
    (fixtures.one_hand [fixtures.palm]) 0 = Some "B"%string.
Proof. split; [discriminate|]. split; reflexivity. Qed.

(** [failing_hand_ends_callback] on two hands of which the first fails. *)
Lemma failing_hand_ends_callback_witness :
  demo.print_result fixtures.scaler fixtures.classifier_right_only
    fixtures.draw_landmarks fixtures.putText fixtures.two_hands 1
    fixtures.globals fixtures.store
  = ({| demo.predictions := []; demo.drawn_frame := 0 |}, fixtures.store).
Proof.
  apply (failing_hand_ends_callback fixtures.scaler
           fixtures.classifier_right_only fixtures.draw_landmarks
           fixtures.putText fixtures.two_hands 1 fixtures.globals
           fixtures.store 0).
  - simpl. lia.
  - reflexivity.
  - intros i Hi. lia.
Defined.

(** C3 as stated fails: the first of two hands fails, the second would
    classify as "B", and the callback ends with no prediction at all, the
    list published before replaced by an empty one. *)
Lemma second_hand_not_classified :
  demo.predict_hand fixtures.scaler fixtures.classifier_right_only
    fixtures.two_hands 0 = None /\
  demo.predict_hand fixtures.scaler fixtures.classifier_right_only
    fixtures.two_hands 1 = Some "B"%string /\
  demo.print_result fixtures.scaler fixtures.classifier_right_only
    fixtures.draw_landmarks fixtures.putText fixtures.two_hands 1
    fixtures.globals fixtures.store
  = ({| demo.predictions := []; demo.drawn_frame := 0 |}, fixtures.store) /\
  demo.predictions fixtures.globals = ["A"%string].
Proof. repeat split; reflexivity. Qed.

(** [drawn_frame_is_prior_or_next] on one hand. *)
Lemma drawn_frame_is_prior_or_next_witness :
  (demo.drawn_frame fixtures.globals < length fixtures.store)%nat /\
  demo.reaches fixtures.scaler fixtures.classifier fixtures.draw_landmarks
    fixtures.putText (fixtures.one_hand fixtures.hand21) 1
    (demo.Enter, fixtures.globals, fixtures.store)
    (demo.Exit,
     {| demo.predictions := ["B"%string]; demo.drawn_frame := 4 |},
     fixtures.store ++
     [ [[[0; 255; 0]]]; [[[0; 255; 0]]]; [[[0; 255; 0]]] ]).
Proof.
  assert (demo.drawn_frame fixtures.globals < length fixtures.store)%nat
    as Hvalid by (simpl; lia).
  split; [exact Hvalid|].
  exact (proj1 (drawn_frame_is_prior_or_next fixtures.scaler
                  fixtures.classifier fixtures.draw_landmarks
                  fixtures.putText (fixtures.one_hand fixtures.hand21) 1
                  fixtures.globals fixtures.store Hvalid)).
Defined.

(** C1 as stated fails: when the callback enters the rendering call of line
    37 a reader gets the new prediction list with the overlay published
    before. *)
Lemma new_predictions_with_old_frame :
  demo.reaches fixtures.scaler fixtures.classifier fixtures.draw_landmarks
    fixtures.putText (fixtures.one_hand fixtures.hand21) 1
    (demo.Enter, fixtures.globals, fixtures.store)
    (demo.Draw
       (np.Run (utils.draw_landmarks_on_image_ops fixtures.draw_landmarks
                  fixtures.putText 1 (fixtures.one_hand fixtures.hand21)
                  ["B"%string])),
     {| demo.predictions := ["B"%string]; demo.drawn_frame := 0 |},
     fixtures.store) /\
  demo.observe fixtures.globals fixtures.store
  = (["A"%string], Some [[[9; 9; 9]]]) /\
  demo.observe
    (demo.print_result fixtures.scaler fixtures.classifier
       fixtures.draw_landmarks fixtures.putText
       (fixtures.one_hand fixtures.hand21) 1 fixtures.globals
       fixtures.store).1
    (demo.print_result fixtures.scaler fixtures.classifier
       fixtures.draw_landmarks fixtures.putText
       (fixtures.one_hand fixtures.hand21) 1 fixtures.globals
       fixtures.store).2
  = (["B"%string], Some [[[0; 255; 0]]]) /\
  demo.observe {| demo.predictions := ["B"%string]; demo.drawn_frame := 0 |}
    fixtures.store
  = (["B"%string], Some [[[9; 9; 9]]]).
Proof.
  split; [|repeat split; reflexivity].
  eapply demo.reaches_step with (partial := []); [reflexivity|].
  eapply demo.reaches_step with (partial := []); [reflexivity|].
  eapply demo.reaches_step with (partial := []); [reflexivity|].
  apply demo.reaches_refl.
Qed.

(** ** The label on a sample hand *)

(** [label_drawn_at_mirrored_corner] on a canvas of two rows and four
    columns. *)
Lemma label_drawn_at_mirrored_corner_witness :
  exists (text : np.image) (r : np.loc) (σ' : np.store),
    utils.draw_hand fixtures.draw_landmarks fixtures.putText 2 4
      ["A"%string] 0 0 fixtures.spread_hand [np.zeros (2, 4, 3)%nat]
    = (Some r, σ') /\
    fixtures.putText
      (np.flip1 (map (map (fun _ => [0; 255; 0])) (np.zeros (2, 4, 3)%nat)))
      "A" (mirror 4 1 - (utils.MARGIN - 1), 0 - utils.MARGIN) = Some text /\
    σ' !! r = Some (np.flip1 text).
Proof.
  destruct (utils.draw_hand fixtures.draw_landmarks fixtures.putText 2 4
              ["A"%string] 0 0 fixtures.spread_hand [np.zeros (2, 4, 3)%nat])
    as [[r|] σ'] eqn:E; [|vm_compute in E; discriminate E].
  destruct (label_drawn_at_mirrored_corner fixtures.draw_landmarks
              fixtures.putText 2 4 ["A"%string] 0 0 fixtures.spread_hand
              [np.zeros (2, 4, 3)%nat] σ' r E)
    as (x & y & label & canvas & skeleton & text & Hx & Hy & Hl & Hc & Hs
        & Ht & Hr & _ & _).
  vm_compute in Hx. injection Hx as <-.
  vm_compute in Hy. injection Hy as <-.
  injection Hl as <-. injection Hc as <-. injection Hs as <-.
  exists text, r, σ'. split; [reflexivity|]. split; [exact Ht|exact Hr].
Defined.

(** C9 as stated fails: on a frame of 640 by 480 the label of this hand is
    anchored 270 columns away from the pixel of its smallest [x] and [y],
    mirrored or not. *)
Lemma label_not_at_min_corner :
  utils.text_org 480 640 fixtures.spread_hand = Some (350, 110) /\
  min_corner 480 640 fixtures.spread_hand = Some (80, 120) /\
  ~ within_margin (350, 110) (80, 120) /\
  ~ within_margin (mirror 640 350, 110) (80, 120).
Proof.
  split; [reflexivity|]. split; [reflexivity|].
  split; intros [H _]; vm_compute in H; apply H; reflexivity.
Qed.

(** ** The throttle on sample rates *)

(** [submissions_bounded] for a gap of 10, a step of 4 and 10 frames. *)
Lemma submissions_bounded_witness :
  Z.of_nat (length (demo.submitted (demo.capture 10 4 10)))
  <= demo.timestamp (demo.capture 10 4 10) / 10 + 1.
Proof. apply (submissions_bounded 10 4 10); lia. Defined.

(** [every_frame_submitted] at 30 frames per second. *)
Lemma every_frame_submitted_witness :
  demo.fps 30 = Some 33 /\ demo.INTERVAL < 33 /\
  demo.submitted (demo.capture demo.INTERVAL 33 3) = [99; 66; 33].
Proof.
  destruct (every_frame_submitted 30 33 3 eq_refl) as [H1 H2].
  split; [reflexivity|].
  assert (demo.INTERVAL < 33) as Hlt.
  { apply H1. split; unfold Qlt, Qle; simpl; lia. }
  split; [exact Hlt|]. exact (proj1 (H2 Hlt)).
Defined.

(** ** The split on sample tables *)

(** [split_partitions_listed_letters] on ten records of "A". *)
Lemma split_partitions_listed_letters_witness :
  exists train test : split.csv,
    split.script (seq 0) fixtures.table_A
    = (Some tt, [("train.csv"%string, train); ("test.csv"%string, test)]) /\
    split.count_letter "A" train = 8%nat /\
    split.count_letter "A" test = 2%nat.
Proof.
  destruct (split_partitions_listed_letters (seq 0) fixtures.table_A)
    as (train & test & Hrun & _ & Hcount & _).
  - intros n. reflexivity.
  - reflexivity.
  - exists train, test. split; [exact Hrun|].
    destruct (Hcount "A"%string) as [Htrain Htest].
    + vm_compute. repeat constructor.
    + split; [rewrite Htrain|rewrite Htest]; reflexivity.
Defined.

(** C7 as stated fails: a record of letter "J" is in neither file. *)
Lemma unlisted_letter_is_dropped :
  split.records fixtures.table_J = [fixtures.record "J"] /\
  split.script (seq 0) fixtures.table_J
  = (Some tt,
     [("train.csv"%string,
       {| split.header := split.expected_cols; split.records := [] |});
      ("test.csv"%string,
       {| split.header := split.expected_cols; split.records := [] |})]).
Proof. split; reflexivity. Qed.

(** C8 (as amended).  The script compares the header with [expected_cols]
    as lists: [letter], [hand], then for each landmark 0 to 20 its [x], [y]
    and [z] column together.  On any other header, the same names in another
    order included, it raises before a file is written; on that header it
    goes on to write [train.csv] and [test.csv] under the same header. *)
Theorem script_checks_columns (permutation : nat -> list nat)
    (input : split.csv) :
  (split.header input <> split.expected_cols ->
   split.script permutation input = (None, [])) /\
  (split.header input = split.expected_cols ->
   exists train test : split.csv,
     split.script permutation input
     = (Some tt, [("train.csv"%string, train); ("test.csv"%string, test)]) /\
     split.header train = split.expected_cols /\
     split.header test = split.expected_cols) /\
  length split.expected_cols = 65%nat /\
  split.expected_cols !! 0%nat = Some "letter"%string /\
  split.expected_cols !! 1%nat = Some "hand"%string /\
  forall i, (i < 21)%nat ->
    split.expected_cols !! (2 + 3 * i)%nat = Some ("x" +:+ pretty i) /\
    split.expected_cols !! (3 + 3 * i)%nat = Some ("y" +:+ pretty i) /\
    split.expected_cols !! (4 + 3 * i)%nat = Some ("z" +:+ pretty i).
Proof.
  split; [|split].
  - intros Hne. unfold split.script. rewrite decide_False by exact Hne.
    reflexivity.
  - intros Heq. unfold split.script. rewrite decide_True by exact Heq.
    eexists _, _. split; [reflexivity|]. split; exact Heq.
  - split; [reflexivity|]. split; [reflexivity|]. split; [reflexivity|].
    intros i Hi.
    do 21 (destruct i as [|i]; [repeat split; reflexivity|]). lia.
Qed.

(** [script_checks_columns] on a table with the expected header. *)
Lemma script_checks_columns_witness :
  exists train test : split.csv,
    split.script (seq 0) fixtures.table_A
    = (Some tt, [("train.csv"%string, train); ("test.csv"%string, test)]).
Proof.
  destruct (proj1 (proj2 (script_checks_columns (seq 0) fixtures.table_A))
              eq_refl) as (train & test & Hrun & _).
  exists train, test. exact Hrun.
Defined.

(** C8 as stated fails: the header in the order the specification lists it
    has the same names as the expected one and is rejected. *)
Lemma listed_order_is_rejected :
  split.header fixtures.table_listed = split.listed_cols /\
  Forall (fun c => c ∈ split.expected_cols) split.listed_cols /\
  Forall (fun c => c ∈ split.listed_cols) split.expected_cols /\
  length split.listed_cols = length split.expected_cols /\
  split.script (seq 0) fixtures.table_listed = (None, []).
Proof.
  split; [reflexivity|].
  split; [apply (bool_decide_unpack _); vm_compute; exact I|].
  split; [apply (bool_decide_unpack _); vm_compute; exact I|].
  split; reflexivity.
Qed.

(* ===================================================================== *)
(** * Part III: further properties of the code                           *)
(* ===================================================================== *)

(** ** More on the compositor *)

Lemma add_transparent_image_run (σ : np.store) (background foreground : np.loc)
    (bg fg : np.image) :
  σ !! background = Some bg -> σ !! foreground = Some fg ->
  utils.add_transparent_image background foreground σ
  = (Some (length σ), σ ++ [utils.blend bg fg]).
Proof.
  intros Hbg Hfg.
  unfold utils.add_transparent_image, np.bind, np.load, np.alloc.
  rewrite Hbg, Hfg. reflexivity.
Qed.

Lemma lookup_alloc (σ : np.store) (a : np.image) :
  (σ ++ [a]) !! length σ = Some a.
Proof. rewrite lookup_app_r, Nat.sub_diag by lia. reflexivity. Qed.

Lemma zip_with_zip_with_absorb {A} (f : A -> A -> A) (a b : list (list A)) :
  (forall x y, f (f x y) y = f x y) ->
  zip_with (zip_with f) (zip_with (zip_with f) a b) b
  = zip_with (zip_with f) a b.
Proof.
  intros Hf. revert b. induction a as [|ra a IH]; intros [|rb b];
    try reflexivity.
  cbn [zip_with]. f_equal; [|apply IH].
  clear IH. revert rb. induction ra as [|x ra IHr]; intros [|y rb];
    try reflexivity.
  cbn [zip_with]. f_equal; [apply Hf|apply IHr].
Qed.

Lemma zip_with_zip_with_assoc {A} (f : A -> A -> A) (a b c : list (list A)) :
  (forall x y z, f (f x y) z = f x (f y z)) ->
  zip_with (zip_with f) (zip_with (zip_with f) a b) c
  = zip_with (zip_with f) a (zip_with (zip_with f) b c).
Proof.
  intros Hf. revert b c. induction a as [|ra a IH]; intros [|rb b] [|rc c];
    try reflexivity.
  cbn [zip_with]. f_equal; [|apply IH].
  clear IH. revert rb rc. induction ra as [|x ra IHr]; intros [|y rb] [|z rc];
    try reflexivity.
  cbn [zip_with]. f_equal; [apply Hf|apply IHr].
Qed.

Lemma select_absorb (pb pf : np.pixel) :
  select (select pb pf) pf = select pb pf.
Proof. unfold select. case_decide; reflexivity. Qed.

Lemma select_assoc (pb p1 p2 : np.pixel) :
  select (select pb p1) p2 = select pb (select p1 p2).
Proof.
  unfold select. destruct (decide (0 < foldr Z.add 0 p2)) as [H2|H2];
    [rewrite decide_True by exact H2|]; reflexivity.
Qed.

(** X1.  Compositing the same overlay a second time changes nothing: the second
    result holds the pixels of the first. *)
Theorem composite_same_overlay_twice (h w : nat) (σ : np.store)
    (background foreground : np.loc) (bg fg : np.image) :
  σ !! background = Some bg -> σ !! foreground = Some fg ->
  np.has_shape h w 3 bg -> np.has_shape h w 3 fg ->
  exists (once twice : np.loc) (σ1 σ2 : np.store) (out : np.image),
    utils.add_transparent_image background foreground σ = (Some once, σ1) /\
    utils.add_transparent_image once foreground σ1 = (Some twice, σ2) /\
    once <> twice /\
    σ2 !! once = Some out /\ σ2 !! twice = Some out.
Proof.
  intros Hbg Hfg Sb Sf.
  destruct (blend_select h w bg fg Sb Sf) as [E So].
  destruct (blend_select h w (utils.blend bg fg) fg So Sf) as [E' _].
  exists (length σ), (S (length σ)), (σ ++ [utils.blend bg fg]),
    ((σ ++ [utils.blend bg fg]) ++ [utils.blend bg fg]), (utils.blend bg fg).
  assert (length (σ ++ [utils.blend bg fg]) = S (length σ)) as Hlen
    by (rewrite length_app; simpl; lia).
  split; [apply add_transparent_image_run; assumption|]. split; [|split; [lia|split]].
  - rewrite (add_transparent_image_run _ _ _ (utils.blend bg fg) fg).
    + rewrite Hlen. do 3 f_equal. rewrite E', E.
      apply zip_with_zip_with_absorb, select_absorb.
    + apply lookup_alloc.
    + apply lookup_app_l_Some, Hfg.
  - apply lookup_app_l_Some, lookup_alloc.
  - rewrite <- Hlen. apply lookup_alloc.
Qed.

(** X2.  Two overlays composited one after the other give the pixels of
    compositing, once, the second overlay laid over the first. *)
Theorem composite_overlays_in_turn (h w : nat) (σ : np.store)
    (background first second : np.loc) (bg f1 f2 : np.image) :
  σ !! background = Some bg -> σ !! first = Some f1 ->
  σ !! second = Some f2 ->
  np.has_shape h w 3 bg -> np.has_shape h w 3 f1 -> np.has_shape h w 3 f2 ->
  exists (a b c d : np.loc) (σa σb σc σd : np.store) (out : np.image),
    utils.add_transparent_image background first σ = (Some a, σa) /\
    utils.add_transparent_image a second σa = (Some b, σb) /\
    utils.add_transparent_image first second σ = (Some c, σc) /\
    utils.add_transparent_image background c σc = (Some d, σd) /\
    σb !! b = Some out /\ σd !! d = Some out.
Proof.
  intros Hbg Hf1 Hf2 Sb S1 S2.
  destruct (blend_select h w bg f1 Sb S1) as [E1 So1].
  destruct (blend_select h w f1 f2 S1 S2) as [E2 So2].
  destruct (blend_select h w _ f2 So1 S2) as [E3 _].
  destruct (blend_select h w bg _ Sb So2) as [E4 _].
  eexists _, _, _, _, _, _, _, _, _.
  split; [apply add_transparent_image_run; eassumption|].
  split; [apply add_transparent_image_run;
          [apply lookup_alloc|apply lookup_app_l_Some, Hf2]|].
  split; [apply add_transparent_image_run; eassumption|].
  split; [apply add_transparent_image_run;
          [apply lookup_app_l_Some, Hbg|apply lookup_alloc]|].
  split; [apply lookup_alloc|].
  rewrite E3, E1, E4, E2, zip_with_zip_with_assoc by apply select_assoc.
  apply lookup_alloc.
Qed.

(** X3.  An overlay without a black pixel covers the background entirely. *)
Theorem composite_dense_overlay (h w : nat) (σ : np.store)
    (background foreground : np.loc) (bg fg : np.image) :
  σ !! background = Some bg -> σ !! foreground = Some fg ->
  np.has_shape h w 3 bg -> np.has_shape h w 3 fg ->
  Forall (Forall (fun px => 0 < foldr Z.add 0 px)) fg ->
  exists (result : np.loc) (σ' : np.store),
    utils.add_transparent_image background foreground σ = (Some result, σ') /\
    σ' !! result = Some fg.
Proof.
  intros Hbg Hfg Sb Sf Hdense.
  exists (length σ), (σ ++ [utils.blend bg fg]).
  split; [apply add_transparent_image_run; assumption|].
  rewrite lookup_alloc. f_equal.
  rewrite (proj1 (blend_select h w bg fg Sb Sf)).
  destruct Sb as [Hh Hb], Sf as [Hh' Hf]. subst h. clear Hbg Hfg.
  revert bg Hh' Hb Hf. induction Hdense as [|rf fg Hrow _ IH];
    intros [|rb bg] Hlen Hb Hf; try discriminate; [reflexivity|].
  apply Forall_cons in Hb as [[Hw _] Hb].
  apply Forall_cons in Hf as [[Hw' _] Hf].
  cbn [zip_with]. rewrite IH by (assumption || (simpl in Hlen; lia)).
  f_equal. subst w. clear -Hw' Hrow. revert rb Hw'.
  induction Hrow as [|pf rf Hpf _ IHr]; intros [|pb rb] Hlen;
    try discriminate; [reflexivity|].
  cbn [zip_with]. unfold select at 1. rewrite decide_True by exact Hpf.
  f_equal. apply IHr. simpl in Hlen. lia.
Qed.

(** ** More on [draw_landmarks_on_image] *)

Section rendering_facts.

Variable draw_landmarks : np.image -> list mp.landmark -> option np.image.
Variable putText : np.image -> string -> Z * Z -> option np.image.

Local Abbreviation draw_hand := (utils.draw_hand draw_landmarks putText).
Local Abbreviation draw_hands := (utils.draw_hands draw_landmarks putText).
Local Abbreviation draw_landmarks_on_image :=
  (utils.draw_landmarks_on_image draw_landmarks putText).

(** What a pass of the loop that returns has done. *)
Lemma draw_hand_inv (h w : nat) (predictions : list string) (a : np.loc)
    (idx : nat) (hand : list mp.landmark) (σ σ' : np.store) (r : np.loc) :
  draw_hand h w predictions a idx hand σ = (Some r, σ') ->
  exists (canvas skeleton text : np.image) (org : Z * Z) (label : string),
    σ !! a = Some canvas /\
    draw_landmarks canvas hand = Some skeleton /\
    utils.text_org h w hand = Some org /\
    predictions !! idx = Some label /\
    putText (np.flip1 skeleton) label org = Some text /\
    r = S (length σ) /\
    σ' = <[length σ := text]> (<[a := skeleton]> σ ++ [np.flip1 skeleton])
         ++ [np.flip1 text].
Proof.
  unfold utils.draw_hand, utils.flip, np.bind, np.modify, np.load, np.alloc.
  destruct (σ !! a) as [canvas|] eqn:Ha; [|discriminate].
  cbn [mbind option_bind].
  destruct (draw_landmarks canvas hand) as [skeleton|] eqn:Hskel;
    [|discriminate].
  destruct (utils.text_org h w hand) as [org|] eqn:Horg; [|discriminate].
  cbn [np.lift np.ret].
  assert (a < length σ)%nat as Hlt by (eapply lookup_lt_Some, Ha).
  rewrite list_lookup_insert_eq by exact Hlt.
  destruct (predictions !! idx) as [label|] eqn:Hlabel; [|discriminate].
  cbn [np.lift np.ret]. rewrite length_insert.
  rewrite lookup_app_r, length_insert, Nat.sub_diag
    by (rewrite length_insert; lia).
  cbn [lookup list_lookup mbind option_bind].
  destruct (putText (np.flip1 skeleton) label org) as [text|] eqn:Htext;
    [|discriminate].
  rewrite list_lookup_insert_eq
    by (rewrite length_app, length_insert; simpl; lia).
  intros [= <- <-].
  exists canvas, skeleton, text, org, label.
  repeat (split; [reflexivity || assumption|]).
  split; [|reflexivity].
  rewrite length_insert, length_app, length_insert. simpl. lia.
Qed.

Lemma text_org_nonempty (h w : nat) (hand : list mp.landmark) :
  is_Some (utils.text_org h w hand) <-> hand <> [].
Proof.
  unfold utils.text_org. destruct hand as [|l hand].
  - split; [intros [org [=]]|congruence].
  - split; [discriminate|]. intros _. cbn. eexists. reflexivity.
Qed.

Lemma draw_hands_missing_label (h w : nat) (predictions : list string)
    (hands : list (list mp.landmark)) (a : np.loc) (idx : nat)
    (σ : np.store) :
  (idx <= length predictions < idx + length hands)%nat ->
  (draw_hands h w predictions a idx hands σ).1 = None.
Proof.
  revert a idx σ. induction hands as [|hand hands IH]; intros a idx σ Hlen.
  - simpl in Hlen. lia.
  - cbn [utils.draw_hands]. unfold np.bind.
    destruct (draw_hand h w predictions a idx hand σ) as [[r|] σ'] eqn:E;
      [|reflexivity].
    apply draw_hand_inv in E as (_ & _ & _ & _ & label & _ & _ & _ & Hl & _).
    apply lookup_lt_Some in Hl. apply IH. simpl in Hlen. lia.
Qed.

(** X5.  A result with more hands than labels makes the renderer raise, whatever
    the drawing primitives do. *)
Theorem draw_landmarks_on_image_missing_label (rgb_image : np.loc)
    (result : mp.HandLandmarkerResult) (predictions : list string)
    (σ : np.store) :
  (length predictions < length (mp.hand_landmarks result))%nat ->
  (draw_landmarks_on_image rgb_image result predictions σ).1 = None.
Proof.
  intros Hlen. unfold utils.draw_landmarks_on_image, np.bind, np.load, np.alloc.
  destruct (σ !! rgb_image) as [img|]; [|reflexivity].
  destruct (np.shape img) as [[h w] c].
  apply draw_hands_missing_label. lia.
Qed.

Lemma draw_hands_empty_hand (h w : nat) (predictions : list string)
    (hands : list (list mp.landmark)) (a : np.loc) (idx : nat)
    (σ : np.store) :
  [] ∈ hands -> (draw_hands h w predictions a idx hands σ).1 = None.
Proof.
  revert a idx σ. induction hands as [|hand hands IH]; intros a idx σ Hin.
  - inversion Hin.
  - cbn [utils.draw_hands]. unfold np.bind.
    destruct (draw_hand h w predictions a idx hand σ) as [[r|] σ'] eqn:E;
      [|reflexivity].
    apply draw_hand_inv in E as (_ & _ & _ & org & _ & _ & _ & Horg & _).
    apply elem_of_cons in Hin as [<-|Hin]; [discriminate Horg|].
    apply IH, Hin.
Qed.

(** X6.  A hand without landmarks makes the renderer raise. *)
Theorem draw_landmarks_on_image_empty_hand (rgb_image : np.loc)
    (result : mp.HandLandmarkerResult) (predictions : list string)
    (σ : np.store) :
  [] ∈ mp.hand_landmarks result ->
  (draw_landmarks_on_image rgb_image result predictions σ).1 = None.
Proof.
  intros Hin. unfold utils.draw_landmarks_on_image, np.bind, np.load, np.alloc.
  destruct (σ !! rgb_image) as [img|]; [|reflexivity].
  destruct (np.shape img) as [[h w] c].
  apply draw_hands_empty_hand, Hin.
Qed.

(** X4.  The renderer writes to no array that existed before the call, frame
    included, also when it raises; what it returns is a reference that was
    not in use. *)
Theorem draw_landmarks_on_image_writes_fresh (rgb_image : np.loc)
    (result : mp.HandLandmarkerResult) (predictions : list string)
    (σ σ' : np.store) (r : option np.loc) :
  draw_landmarks_on_image rgb_image result predictions σ = (r, σ') ->
  (forall l a, σ !! l = Some a -> σ' !! l = Some a) /\
  (forall frame, r = Some frame -> σ !! frame = None).
Proof.
  intros Hrun.
  destruct (frames_draw_landmarks_on_image draw_landmarks putText (length σ)
              rgb_image result predictions σ (le_n _)) as [[_ Hkeep] Hfresh].
  rewrite Hrun in Hkeep, Hfresh. cbn in Hkeep, Hfresh. split.
  - intros l a Hl. rewrite Hkeep; [exact Hl|]. eapply lookup_lt_Some, Hl.
  - intros frame ->. apply lookup_ge_None, Hfresh. reflexivity.
Qed.

End rendering_facts.

Lemma flip1_has_shape (h w c : nat) (a : np.image) :
  np.has_shape h w c a -> np.has_shape h w c (np.flip1 a).
Proof.
  intros [Hh Hrows]. unfold np.flip1. split; [rewrite length_map; exact Hh|].
  rewrite Forall_forall in Hrows. apply Forall_forall. intros row Hrow.
  apply list_elem_of_In, in_map_iff in Hrow as (row' & <- & Hin).
  apply list_elem_of_In, Hrows in Hin as [Hw Hpx].
  split; [rewrite length_rev; exact Hw|].
  apply Forall_forall. intros px Hin.
  apply list_elem_of_In, in_rev, list_elem_of_In in Hin.
  rewrite Forall_forall in Hpx. apply Hpx, Hin.
Qed.

Section rendering_succeeds.

Variable draw_landmarks : np.image -> list mp.landmark -> option np.image.
Variable putText : np.image -> string -> Z * Z -> option np.image.
Variables rows cols channels : nat.
Variable result : mp.HandLandmarkerResult.
Variable predictions : list string.
Hypothesis draw_landmarks_ok :
  draws_on rows cols channels
    (fun hand => hand ∈ mp.hand_landmarks result) draw_landmarks.
Hypothesis putText_ok :
  draws_on rows cols channels
    (fun arg : string * (Z * Z) => arg.1 ∈ predictions)
    (fun a arg => putText a arg.1 arg.2).

Local Abbreviation draw_hand := (utils.draw_hand draw_landmarks putText).
Local Abbreviation draw_hands := (utils.draw_hands draw_landmarks putText).

Lemma draw_hand_succeeds (h w : nat) (a : np.loc) (idx : nat)
    (hand : list mp.landmark) (σ : np.store) (canvas : np.image) :
  σ !! a = Some canvas -> np.has_shape rows cols channels canvas ->
  hand <> [] -> hand ∈ mp.hand_landmarks result ->
  (idx < length predictions)%nat ->
  exists (r : np.loc) (σ' : np.store) (out : np.image),
    draw_hand h w predictions a idx hand σ = (Some r, σ') /\
    σ' !! r = Some out /\ np.has_shape rows cols channels out.
Proof.
  intros Ha Sc Hhand Hin Hidx.
  destruct (draw_landmarks_ok canvas hand Sc Hin) as (skeleton & Hskel & Ss).
  destruct (proj2 (text_org_nonempty h w hand) Hhand) as [org Horg].
  destruct (lookup_lt_is_Some_2 predictions idx Hidx) as [label Hlabel].
  destruct (putText_ok (np.flip1 skeleton) (label, org)
              (flip1_has_shape _ _ _ _ Ss)
              (list_elem_of_lookup_2 _ _ _ Hlabel)) as (text & Htext & St).
  cbn in Htext.
  assert (a < length σ)%nat as Hlt by (eapply lookup_lt_Some, Ha).
  exists (S (length σ)),
    (<[length σ := text]> (<[a := skeleton]> σ ++ [np.flip1 skeleton])
     ++ [np.flip1 text]), (np.flip1 text).
  split; [|split].
  - unfold utils.draw_hand, utils.flip, np.bind, np.modify, np.load, np.alloc.
    rewrite Ha. cbn [mbind option_bind]. rewrite Hskel, Horg.
    cbn [np.lift np.ret]. rewrite list_lookup_insert_eq by exact Hlt.
    rewrite Hlabel. cbn [np.lift np.ret]. rewrite length_insert.
    rewrite lookup_app_r, length_insert, Nat.sub_diag
      by (rewrite length_insert; lia).
    cbn [lookup list_lookup mbind option_bind]. rewrite Htext.
    rewrite list_lookup_insert_eq
      by (rewrite length_app, length_insert; simpl; lia).
    rewrite length_insert, length_app, length_insert. simpl.
    replace (length σ + 1)%nat with (S (length σ)) by lia. reflexivity.
  - rewrite lookup_app_r; rewrite length_insert, length_app, length_insert;
      simpl; [|lia].
    replace (S (length σ) - (length σ + 1))%nat with 0%nat by lia.
    reflexivity.
  - apply flip1_has_shape, St.
Qed.

Lemma draw_hands_succeeds (h w : nat) (hands : list (list mp.landmark))
    (a : np.loc) (idx : nat) (σ : np.store) (canvas : np.image) :
  σ !! a = Some canvas -> np.has_shape rows cols channels canvas ->
  Forall (fun hand => hand <> [] /\ hand ∈ mp.hand_landmarks result) hands ->
  (idx + length hands <= length predictions)%nat ->
  exists (r : np.loc) (σ' : np.store) (out : np.image),
    draw_hands h w predictions a idx hands σ = (Some r, σ') /\
    σ' !! r = Some out /\ np.has_shape rows cols channels out.
Proof.
  intros Ha Sc Hhands. revert a idx σ canvas Ha Sc.
  induction Hhands as [|hand hands [Hhand Hin] _ IH];
    intros a idx σ canvas Ha Sc Hlen.
  - exists a, σ, canvas. split; [reflexivity|split; assumption].
  - simpl in Hlen.
    destruct (draw_hand_succeeds h w a idx hand σ canvas
                Ha Sc Hhand Hin) as (r & σ1 & out & Hrun & Hr & So); [lia|].
    destruct (IH r (S idx) σ1 out Hr So) as (r' & σ' & out' & Hrun' & Hr' & So');
      [lia|].
    exists r', σ', out'. split; [|split; assumption].
    cbn [utils.draw_hands]. unfold np.bind. rewrite Hrun. exact Hrun'.
Qed.

(** X7.  Given a frame of shape [(rows, cols, channels)], a label for every
    hand and no hand without landmarks: if on an array of that shape
    [draw_landmarks] with a hand of this result, and [putText] with a label
    of this prediction list, return an array of that shape, then the
    renderer returns an overlay of the shape of the frame.  Nothing is
    asked of the two drawing calls on other arrays, hands or labels. *)
Theorem draw_landmarks_on_image_succeeds (rgb_image : np.loc)
    (σ : np.store) (img : np.image) :
  σ !! rgb_image = Some img -> np.has_shape rows cols channels img ->
  Forall (fun hand => hand <> []) (mp.hand_landmarks result) ->
  (length (mp.hand_landmarks result) <= length predictions)%nat ->
  exists (r : np.loc) (σ' : np.store) (out : np.image),
    utils.draw_landmarks_on_image draw_landmarks putText
      rgb_image result predictions σ = (Some r, σ') /\
    σ' !! r = Some out /\ np.has_shape rows cols channels out.
Proof.
  intros Hrgb Si Hhands Hlen.
  unfold utils.draw_landmarks_on_image, np.bind, np.load, np.alloc.
  rewrite Hrgb.
  pose proof (zeros_like_has_shape rows cols channels img Si) as Sz.
  destruct (np.shape img) as [[h0 w0] c0].
  apply (draw_hands_succeeds h0 w0 _ (length σ) 0
           (σ ++ [np.zeros (h0, w0, c0)]) (np.zeros (h0, w0, c0)));
    [apply lookup_alloc|exact Sz| |lia].
  rewrite Forall_forall in Hhands. apply Forall_forall.
  intros hand Hin. split; [apply Hhands, Hin|exact Hin].
Qed.

End rendering_succeeds.

(** ** [drawLandmarks] *)

Section handedness_facts.

Variable draw_landmarks : np.image -> list mp.landmark -> option np.image.
Variable putText_styled :
  np.image -> string -> Z * Z -> utils.text_style -> option np.image.

Local Abbreviation drawHand := (utils.drawHand draw_landmarks putText_styled).
Local Abbreviation drawHands := (utils.drawHands draw_landmarks putText_styled).
Local Abbreviation drawLandmarks :=
  (utils.drawLandmarks draw_landmarks putText_styled).

(** What a pass of the loop that returns has done. *)
Lemma drawHand_inv (h w : nat) (result : mp.HandLandmarkerResult)
    (output : np.loc) (idx : nat) (σ σ' : np.store) :
  drawHand h w result output idx σ = (Some tt, σ') ->
  exists (landmarks : list mp.landmark) (handedness : list mp.category)
         (first : mp.category) (org : Z * Z)
         (canvas skeleton outlined filled : np.image),
    mp.hand_landmarks result !! idx = Some landmarks /\
    mp.handedness result !! idx = Some handedness /\
    handedness !! 0%nat = Some first /\
    utils.handedness_org h w landmarks = Some org /\
    σ !! output = Some canvas /\
    draw_landmarks canvas landmarks = Some skeleton /\
    putText_styled skeleton (mp.category_name first) org utils.outline
    = Some outlined /\
    putText_styled outlined (mp.category_name first) org utils.fill
    = Some filled /\
    σ' = <[output := filled]> σ.
Proof.
  unfold utils.drawHand, np.bind, np.modify.
  destruct (mp.hand_landmarks result !! idx) as [landmarks|] eqn:Hl;
    [|discriminate].
  destruct (mp.handedness result !! idx) as [handedness|] eqn:Hh;
    [|discriminate].
  cbn [np.lift np.ret].
  destruct (σ !! output) as [canvas|] eqn:Ho; [|discriminate].
  cbn [mbind option_bind].
  destruct (draw_landmarks canvas landmarks) as [skeleton|] eqn:Hskel;
    [|discriminate].
  destruct (utils.handedness_org h w landmarks) as [org|] eqn:Horg;
    [|discriminate].
  destruct (handedness !! 0%nat) as [first|] eqn:Hf; [|discriminate].
  cbn [np.lift np.ret].
  assert (output < length σ)%nat as Hlt by (eapply lookup_lt_Some, Ho).
  rewrite list_lookup_insert_eq by exact Hlt. cbn [mbind option_bind].
  destruct (putText_styled skeleton _ org utils.outline) as [outlined|] eqn:H1;
    [|discriminate].
  rewrite list_lookup_insert_eq by (rewrite length_insert; exact Hlt).
  cbn [mbind option_bind].
  destruct (putText_styled outlined _ org utils.fill) as [filled|] eqn:H2;
    [|discriminate].
  intros [= <-].
  exists landmarks, handedness, first, org, canvas, skeleton, outlined, filled.
  repeat (split; [reflexivity || assumption|]).
  rewrite !list_insert_insert_eq. reflexivity.
Qed.

(** X8.  A pass of [drawLandmarks] that returns has drawn, on the array it was
    given, the skeleton and then the name of the hand's first handedness
    category twice, a black outline of thickness 5 under a white text of
    thickness 2, both anchored at the pixel column of the smallest [x] and
    20 rows above the pixel row of the smallest [y]: no landmark lies left of
    the anchor or less than 20 rows below it. *)
Theorem drawLandmarks_names_hand_at_min_corner (h w : nat)
    (result : mp.HandLandmarkerResult) (output : np.loc) (idx : nat)
    (σ σ' : np.store) :
  drawHand h w result output idx σ = (Some tt, σ') ->
  exists (landmarks : list mp.landmark) (first : mp.category)
         (x y : Q) (canvas skeleton outlined filled : np.image),
    mp.hand_landmarks result !! idx = Some landmarks /\
    (mp.handedness result !! idx) ≫= head = Some first /\
    num.py_min (map mp.x landmarks) = Some x /\
    num.py_min (map mp.y landmarks) = Some y /\
    let org := (num.int (x * inject_Z (Z.of_nat w)),
                num.int (y * inject_Z (Z.of_nat h)) - 20) in
    σ !! output = Some canvas /\
    draw_landmarks canvas landmarks = Some skeleton /\
    putText_styled skeleton (mp.category_name first) org
      {| utils.fontScale := 1; utils.color := (0, 0, 0);
         utils.thickness := 5 |} = Some outlined /\
    putText_styled outlined (mp.category_name first) org
      {| utils.fontScale := 1; utils.color := (255, 255, 255);
         utils.thickness := 2 |} = Some filled /\
    σ' = <[output := filled]> σ /\
    forall l, l ∈ landmarks ->
      org.1 <= num.int (mp.x l * inject_Z (Z.of_nat w)) /\
      org.2 + 20 <= num.int (mp.y l * inject_Z (Z.of_nat h)).
Proof.
  intros Hrun.
  apply drawHand_inv in Hrun
    as (landmarks & handedness & first & org & canvas & skeleton & outlined
        & filled & Hl & Hh & Hf & Horg & Hc & Hs & Ho & Hfill & ->).
  unfold utils.handedness_org in Horg.
  destruct (num.py_min (map mp.x landmarks)) as [x|] eqn:Hx; [|discriminate].
  destruct (num.py_min (map mp.y landmarks)) as [y|] eqn:Hy; [|discriminate].
  injection Horg as <-.
  exists landmarks, first, x, y, canvas, skeleton, outlined, filled.
  cbn zeta. split; [exact Hl|]. split.
  { rewrite Hh. cbn. destruct handedness; [discriminate|].
    injection Hf as <-. reflexivity. }
  repeat (split; [reflexivity || assumption|]).
  intros l Hin.
  destruct (py_min_le _ _ Hx) as [_ Hminx], (py_min_le _ _ Hy) as [_ Hminy].
  assert (x <= mp.x l)%Q as Hlx by (apply Hminx, list_elem_of_fmap_2, Hin).
  assert (y <= mp.y l)%Q as Hly by (apply Hminy, list_elem_of_fmap_2, Hin).
  assert (0 <= inject_Z (Z.of_nat w))%Q as Hw
    by (rewrite <- (Zle_Qle 0); lia).
  assert (0 <= inject_Z (Z.of_nat h))%Q as Hh'
    by (rewrite <- (Zle_Qle 0); lia).
  cbn [fst snd]. split.
  - apply int_mono, Qmult_le_compat_r; assumption.
  - pose proof (int_mono _ _ (Qmult_le_compat_r _ _ _ Hly Hh')). lia.
Qed.

Lemma drawHands_missing_handedness (h w : nat)
    (result : mp.HandLandmarkerResult) (output : np.loc) (idxs : list nat)
    (σ : np.store) :
  Exists (fun idx => (length (mp.handedness result) <= idx)%nat) idxs ->
  (drawHands h w result output idxs σ).1 = None.
Proof.
  intros Hex. revert σ. induction Hex as [idx idxs Hidx|idx idxs _ IH]; intros σ;
    cbn [utils.drawHands]; unfold np.bind.
  - destruct (drawHand h w result output idx σ) as [[[]|] σ'] eqn:E;
      [|reflexivity].
    apply drawHand_inv in E as (_ & hd & _ & _ & _ & _ & _ & _ & _ & Hh & _).
    apply lookup_lt_Some in Hh. lia.
  - destruct (drawHand h w result output idx σ) as [[[]|] σ']; [|reflexivity].
    apply IH.
Qed.

(** X9.  A result that names the handedness of fewer hands than it has makes
    [drawLandmarks] raise, in either mode. *)
Theorem drawLandmarks_missing_handedness (rgbImage : np.loc)
    (result : mp.HandLandmarkerResult) (mode : string) (σ : np.store) :
  (length (mp.handedness result) < length (mp.hand_landmarks result))%nat ->
  (drawLandmarks rgbImage result mode σ).1 = None.
Proof.
  intros Hlen. unfold utils.drawLandmarks, np.bind, np.load, np.alloc.
  destruct (σ !! rgbImage) as [img|]; [|reflexivity].
  destruct (np.shape img) as [[h w] c].
  rewrite (surjective_pairing (drawHands _ _ _ _ _ _)).
  rewrite drawHands_missing_handedness; [reflexivity|].
  apply Exists_exists. exists (length (mp.handedness result)).
  split; [apply elem_of_seq; lia|lia].
Qed.

Lemma frames_drawHands (n h w : nat) (result : mp.HandLandmarkerResult)
    (output : np.loc) (idxs : list nat) :
  (n <= output)%nat ->
  frames n (fun _ => True) (drawHands h w result output idxs).
Proof.
  intros Ho. induction idxs as [|idx idxs IH]; [apply frames_ret; exact I|].
  cbn [utils.drawHands]. eapply frames_bind; [|intros _ _; exact IH].
  unfold utils.drawHand.
  eapply frames_bind; [apply frames_lift|]. intros landmarks _.
  eapply frames_bind; [apply frames_lift|]. intros handedness _.
  eapply frames_bind; [apply frames_modify, Ho|]. intros _ _.
  eapply frames_bind; [apply frames_lift|]. intros org _.
  eapply frames_bind; [apply frames_lift|]. intros first _.
  eapply frames_bind; [apply frames_modify, Ho|]. intros _ _.
  eapply frames_bind; [apply frames_lift|]. intros first' _.
  apply frames_modify, Ho.
Qed.

(** X10.  In either mode [drawLandmarks] draws on an array of its own: no array
    that existed before the call is written, the image it was given
    included, and the array it returns is a new one. *)
Theorem drawLandmarks_writes_fresh (rgbImage : np.loc)
    (result : mp.HandLandmarkerResult) (mode : string)
    (σ σ' : np.store) (r : option np.loc) :
  drawLandmarks rgbImage result mode σ = (r, σ') ->
  (forall l a, σ !! l = Some a -> σ' !! l = Some a) /\
  (forall output, r = Some output -> σ !! output = None).
Proof.
  intros Hrun.
  assert (frames (length σ) (fun l => (length σ <= l)%nat)
            (drawLandmarks rgbImage result mode)) as Hframes.
  { unfold utils.drawLandmarks.
    eapply frames_bind; [apply frames_load|]. intros img _.
    destruct (np.shape img) as [[h w] c].
    eapply frames_bind; [apply frames_alloc|]. intros output Ho.
    eapply frames_bind; [apply frames_drawHands, Ho|]. intros _ _.
    apply frames_ret, Ho. }
  destruct (Hframes σ (le_n _)) as [[_ Hkeep] Hfresh].
  rewrite Hrun in Hkeep, Hfresh. cbn in Hkeep, Hfresh. split.
  - intros l a Hl. rewrite Hkeep; [exact Hl|]. eapply lookup_lt_Some, Hl.
  - intros output ->. apply lookup_ge_None, Hfresh. reflexivity.
Qed.

End handedness_facts.

(** ** More on the callback *)

Lemma omap_seq_total {B} (f : nat -> option B) (n a : nat) :
  Forall (fun i => is_Some (f i)) (seq a n) ->
  length (omap f (seq a n)) = n /\
  forall i y, omap f (seq a n) !! i = Some y -> f (a + i)%nat = Some y.
Proof.
  revert a. induction n as [|n IH]; intros a Hall.
  - split; [reflexivity|]. intros i y Hi. inversion Hi.
  - cbn [seq] in Hall. apply Forall_cons in Hall as [[p Hp] Hall].
    destruct (IH (S a) Hall) as [Hlen Hget].
    cbn [seq omap list_omap]. rewrite Hp. cbn [length]. split; [lia|].
    intros [|i] y Hi.
    + cbn in Hi. injection Hi as <-. rewrite Nat.add_0_r. exact Hp.
    + cbn in Hi. apply Hget in Hi.
      replace (a + S i)%nat with (S a + i)%nat by lia. exact Hi.
Qed.

Section callback_more.

Variable scaler_transform : list Q -> option (list Q).
Variable classifier_predict : list Q -> option string.
Variable draw_landmarks : np.image -> list mp.landmark -> option np.image.
Variable putText : np.image -> string -> Z * Z -> option np.image.

Local Abbreviation predict_hand :=
  (demo.predict_hand scaler_transform classifier_predict).
Local Abbreviation predict_hands :=
  (demo.predict_hands scaler_transform classifier_predict).
Local Abbreviation print_result :=
  (demo.print_result scaler_transform classifier_predict draw_landmarks putText).

(** The loop stops at the first index that fails: what it leaves in
    [predictions] are the labels of a run of indices that all classified. *)
Lemma predict_hands_prefix (result : mp.HandLandmarkerResult)
    (idxs : list nat) (acc : list string) :
  exists k : nat,
    (k <= length idxs)%nat /\
    Forall (fun i => is_Some (predict_hand result i)) (take k idxs) /\
    (predict_hands result idxs acc).1
    = acc ++ omap (predict_hand result) (take k idxs) /\
    ((predict_hands result idxs acc).2 = true -> k = length idxs).
Proof.
  revert acc. induction idxs as [|idx idxs IH]; intros acc.
  - exists 0%nat. cbn. rewrite app_nil_r. repeat split; auto.
  - cbn [demo.predict_hands].
    destruct (predict_hand result idx) as [p|] eqn:Hp.
    + destruct (IH (acc ++ [p])) as (k & Hk & Hall & Hpre & Hend).
      exists (S k). cbn [take length omap list_omap]. rewrite Hp.
      split; [lia|]. split; [constructor; [eexists; exact Hp|exact Hall]|].
      split; [rewrite Hpre, <- app_assoc; reflexivity|].
      intros Ht. f_equal. apply Hend, Ht.
    + exists 0%nat. cbn. rewrite app_nil_r.
      split; [lia|]. split; [constructor|]. split; [reflexivity|discriminate].
Qed.

(** X11.  Whatever happens in the callback, [predictions] afterwards holds labels
    of this result only: at most one per hand, the label at position [i]
    being the one of hand [i]. *)
Theorem print_result_predictions_are_current
    (result : mp.HandLandmarkerResult) (output_image : np.loc)
    (g : demo.globals) (σ : np.store) :
  let after := (print_result result output_image g σ).1 in
  (length (demo.predictions after)
   <= length (mp.hand_world_landmarks result))%nat /\
  forall i label,
    demo.predictions after !! i = Some label ->
    predict_hand result i = Some label.
Proof.
  cbn zeta.
  destruct (predict_hands_prefix result
              (seq 0 (length (mp.hand_world_landmarks result))) [])
    as (k & Hk & Hall & Hpre & _).
  rewrite length_seq in Hk. cbn [app] in Hpre.
  assert (demo.predictions (print_result result output_image g σ).1
          = omap (predict_hand result) (seq 0 k)) as ->.
  { rewrite take_seq, Nat.min_l in Hpre by exact Hk. rewrite <- Hpre.
    unfold demo.print_result.
    destruct (predict_hands result _ []) as [predictions [|]]; cbn [fst];
      [|reflexivity].
    destruct (utils.draw_landmarks_on_image _ _ _ _ _ _) as [[frame|] σ'];
      reflexivity. }
  rewrite take_seq, Nat.min_l in Hall by exact Hk.
  destruct (omap_seq_total (predict_hand result) k 0 Hall) as [Hlen Hget].
  split; [lia|]. intros i label Hi. exact (Hget i label Hi).
Qed.

(** X12.  When every hand classifies and the renderer returns, the callback
    publishes one label per hand, in the order of the hands, and a newly
    allocated overlay; no array that existed before is written. *)
Theorem print_result_publishes (result : mp.HandLandmarkerResult)
    (output_image : np.loc) (g : demo.globals) (σ σ' : np.store)
    (frame : np.loc) :
  let labels :=
    omap (predict_hand result)
         (seq 0 (length (mp.hand_world_landmarks result))) in
  (forall i, (i < length (mp.hand_world_landmarks result))%nat ->
             is_Some (predict_hand result i)) ->
  utils.draw_landmarks_on_image draw_landmarks putText
    output_image result labels σ = (Some frame, σ') ->
  print_result result output_image g σ
  = ({| demo.predictions := labels; demo.drawn_frame := frame |}, σ') /\
  length labels = length (mp.hand_world_landmarks result) /\
  σ !! frame = None /\
  forall l a, σ !! l = Some a -> σ' !! l = Some a.
Proof.
  intros labels Hall Hdraw.
  assert (Forall (fun i => is_Some (predict_hand result i))
            (seq 0 (length (mp.hand_world_landmarks result)))) as Hall'.
  { apply Forall_forall. intros i Hi. apply elem_of_seq in Hi. apply Hall. lia. }
  split; [|split; [|split]].
  - unfold demo.print_result.
    rewrite <- (app_nil_r (seq 0 _)), predict_hands_app by exact Hall'.
    cbn [demo.predict_hands app]. fold labels. rewrite Hdraw. reflexivity.
  - apply (omap_seq_total (predict_hand result) _ 0 Hall').
  - destruct (frames_draw_landmarks_on_image draw_landmarks putText (length σ)
                output_image result labels σ (le_n _)) as [[_ Hkeep] Hfresh].
    rewrite Hdraw in Hfresh. cbn in Hfresh.
    apply lookup_ge_None, Hfresh. reflexivity.
  - destruct (frames_draw_landmarks_on_image draw_landmarks putText (length σ)
                output_image result labels σ (le_n _)) as [[_ Hkeep] _].
    rewrite Hdraw in Hkeep. cbn in Hkeep.
    intros l a Hl. rewrite Hkeep; [exact Hl|]. eapply lookup_lt_Some, Hl.
Qed.

(** X13.  On a result without hands the callback publishes an empty prediction
    list and a new all-zero overlay of the shape of the frame. *)
Theorem print_result_no_hands (result : mp.HandLandmarkerResult)
    (output_image : np.loc) (g : demo.globals) (σ : np.store)
    (img : np.image) :
  mp.hand_world_landmarks result = [] -> mp.hand_landmarks result = [] ->
  σ !! output_image = Some img ->
  print_result result output_image g σ
  = ({| demo.predictions := []; demo.drawn_frame := length σ |},
     σ ++ [np.zeros (np.shape img)]) /\
  all_zero (np.zeros (np.shape img)) /\
  forall h w c, np.has_shape h w c img ->
                np.has_shape h w c (np.zeros (np.shape img)).
Proof.
  intros Hworld Hhands Himg. split; [|split].
  - unfold demo.print_result, utils.draw_landmarks_on_image, np.bind, np.load,
      np.alloc.
    rewrite Hworld, Hhands, Himg. cbn [length seq demo.predict_hands].
    destruct (np.shape img) as [[h w] c]. reflexivity.
  - apply zeros_all_zero.
  - intros h w c. apply zeros_like_has_shape.
Qed.

End callback_more.

(** ** More on the capture loop *)

Lemma capture_show_is_last (interval fps : Z) (n : nat) :
  demo.show_timestamp (demo.capture interval fps n)
  = hd 0 (demo.submitted (demo.capture interval fps n)).
Proof.
  induction n as [|n IH]; [reflexivity|].
  cbn [demo.capture]. unfold demo.throttle.
  destruct (_ <? _); cbn; [reflexivity|exact IH].
Qed.

(** X14.  The timestamps handed to [detect_async] are more than the minimum gap
    apart, the first more than the gap after zero; with a gap that is not
    negative they strictly increase, as the detector requires. *)
Theorem submissions_spaced (interval fps : Z) (n : nat) :
  spaced interval (demo.submitted (demo.capture interval fps n)) /\
  (0 <= interval ->
   StronglySorted Z.gt (demo.submitted (demo.capture interval fps n)) /\
   Forall (fun t => 0 < t) (demo.submitted (demo.capture interval fps n))).
Proof.
  assert (spaced interval (demo.submitted (demo.capture interval fps n)))
    as Hspaced.
  { induction n as [|n IH]; [exact I|].
    cbn [demo.capture]. unfold demo.throttle.
    destruct (Z.ltb_spec interval
                (demo.timestamp (demo.capture interval fps n) + fps
                 - demo.show_timestamp (demo.capture interval fps n)))
      as [Hlt|_]; cbn [demo.submitted]; [|exact IH].
    split; [|exact IH]. rewrite <- capture_show_is_last. exact Hlt. }
  split; [exact Hspaced|]. intros Hi.
  induction (demo.submitted (demo.capture interval fps n)) as [|t l IH].
  - split; constructor.
  - destruct Hspaced as [Hgap Hrest]. destruct (IH Hrest) as [Hsorted Hpos].
    assert (0 < t) as Ht.
    { destruct l as [|t' l]; cbn in Hgap; [lia|].
      apply Forall_cons in Hpos as [Ht' _]. lia. }
    split; [|constructor; assumption].
    constructor; [exact Hsorted|].
    destruct l as [|t' l]; [constructor|].
    cbn in Hgap. inversion Hsorted as [|? ? _ Hall]; subst.
    constructor; [lia|].
    eapply Forall_impl; [exact Hall|]. intros x Hx. cbn in Hx |- *. lia.
Qed.

Lemma succ_div_mod (N k : Z) :
  0 <= N -> 0 < k ->
  (N mod k = k - 1 -> (N + 1) / k = N / k + 1 /\ (N + 1) mod k = 0) /\
  (N mod k <> k - 1 -> (N + 1) / k = N / k /\ (N + 1) mod k = N mod k + 1).
Proof.
  intros HN Hk.
  pose proof (Z.div_mod N k ltac:(lia)) as Hdm.
  pose proof (Z.mod_pos_bound N k Hk) as Hb.
  split; intros Hm.
  - assert ((N + 1) / k = N / k + 1) as Hq
      by (symmetry; apply (Z.div_unique_pos _ _ _ 0); lia).
    split; [exact Hq|].
    pose proof (Z.div_mod (N + 1) k ltac:(lia)). nia.
  - assert ((N + 1) / k = N / k) as Hq
      by (symmetry; apply (Z.div_unique_pos _ _ _ (N mod k + 1)); lia).
    split; [exact Hq|].
    pose proof (Z.div_mod (N + 1) k ltac:(lia)). nia.
Qed.

(** X15.  With a positive step the loop submits exactly every [k]-th frame,
    [k = interval / fps + 1] being the least number of steps that exceed
    the gap: after [n] frames it has submitted [n / k] times. *)
Theorem submissions_every_kth_frame (interval fps : Z) (n : nat) :
  0 <= interval -> 0 < fps ->
  Z.of_nat (length (demo.submitted (demo.capture interval fps n)))
  = Z.of_nat n / (interval / fps + 1).
Proof.
  intros Hi Hf. set (k := interval / fps + 1).
  assert (0 < k) as Hk by (pose proof (Z.div_pos interval fps Hi Hf); lia).
  assert (forall m, interval < m * fps <-> k <= m) as Hleast.
  { intros m. unfold k. split; intros H.
    - assert (interval / fps < m); [|lia].
      apply Z.div_lt_upper_bound; [exact Hf|lia].
    - pose proof (Z.div_mod interval fps ltac:(lia)).
      pose proof (Z.mod_pos_bound interval fps Hf). nia. }
  enough (Z.of_nat (length (demo.submitted (demo.capture interval fps n)))
          = Z.of_nat n / k /\
          demo.timestamp (demo.capture interval fps n)
          - demo.show_timestamp (demo.capture interval fps n)
          = (Z.of_nat n mod k) * fps) as [H _] by exact H.
  induction n as [|n [IHc IHg]].
  - cbn. rewrite Z.div_0_l, Z.mod_0_l by lia. split; reflexivity.
  - cbn [demo.capture]. unfold demo.throttle.
    replace (demo.timestamp (demo.capture interval fps n) + fps
             - demo.show_timestamp (demo.capture interval fps n))
      with ((Z.of_nat n mod k + 1) * fps) by lia.
    rewrite Nat2Z.inj_succ, <- Z.add_1_r.
    destruct (succ_div_mod (Z.of_nat n) k ltac:(lia) Hk) as [Hwrap Hnext].
    pose proof (Z.mod_pos_bound (Z.of_nat n) k Hk) as Hb.
    destruct (Z.ltb_spec interval ((Z.of_nat n mod k + 1) * fps)) as [Hlt|Hge];
      cbn [demo.submitted demo.timestamp demo.show_timestamp length].
    + apply Hleast in Hlt. destruct Hwrap as [-> ->]; [lia|].
      split; lia.
    + assert (~ k <= Z.of_nat n mod k + 1) as Hnot
        by (intros H; apply Hleast in H; lia).
      destruct Hnext as [-> ->]; [lia|]. split; lia.
Qed.

(** X16.  A step of zero or less (a camera reporting more than 1000 frames per
    second, or a negative rate) never submits a frame. *)
Theorem no_submission_without_progress (interval fps : Z) (n : nat) :
  0 <= interval -> fps <= 0 ->
  demo.submitted (demo.capture interval fps n) = [].
Proof.
  intros Hi Hf.
  enough (demo.submitted (demo.capture interval fps n) = [] /\
          demo.show_timestamp (demo.capture interval fps n) = 0 /\
          demo.timestamp (demo.capture interval fps n) <= 0) as [H _]
    by exact H.
  induction n as [|n (IHs & IHshow & IHt)]; [cbn; repeat split; lia|].
  cbn [demo.capture]. unfold demo.throttle. rewrite IHshow.
  destruct (Z.ltb_spec interval
              (demo.timestamp (demo.capture interval fps n) + fps - 0));
    [lia|].
  cbn. repeat split; (assumption || lia).
Qed.

(** X17.  For a whole frame rate [k] above zero the step is defined and is
    the integer quotient [1000 / k]; it is above [INTERVAL] exactly up to 90
    frames per second, and it is zero exactly above 1000. *)
Theorem fps_whole_rate (k : Z) :
  0 < k ->
  exists step : Z,
    demo.fps (inject_Z k) = Some step /\
    step = 1000 / k /\
    (demo.INTERVAL < step <-> k <= 90) /\
    (step = 0 <-> 1000 < k).
Proof.
  intros Hk. exists (1000 / k). split; [apply fps_of_integer, Hk|].
  split; [reflexivity|]. unfold demo.INTERVAL.
  pose proof (Z.div_mod 1000 k ltac:(lia)) as Hdiv.
  pose proof (Z.mod_pos_bound 1000 k Hk) as Hmod.
  split; split; intros H; nia.
Qed.

(** X18.  The loop ends on a key code whose low byte is 27: ESC itself, also
    with modifier bits above the byte, and not on -1 (no key). *)
Theorem esc_low_byte (key : Z) :
  (demo.esc key = true <-> key mod 256 = 27) /\
  demo.esc (-1) = false /\ demo.esc (27 + 256 * key) = true.
Proof.
  assert (forall k, demo.esc k = true <-> k mod 256 = 27) as Hesc.
  { intros k. unfold demo.esc. change 255 with (Z.ones 8).
    rewrite Z.land_ones by lia. change (2 ^ 8) with 256. apply Z.eqb_eq. }
  split; [apply Hesc|]. split; [reflexivity|].
  apply Hesc. rewrite (Z.mul_comm 256 key), Z.mod_add by lia. reflexivity.
Qed.

Lemma loop_goes_on (interval fps : Z) (pre rest : list demo.tick) (n : nat) :
  Forall goes_on pre ->
  demo.loop interval fps (pre ++ rest) (demo.capture interval fps n) n
  = demo.loop interval fps rest
      (demo.capture interval fps (n + length pre)) (n + length pre)%nat.
Proof.
  intros Hpre. revert n. induction Hpre as [|t pre (Ho & Hr & He) _ IH];
    intros n.
  - cbn. rewrite Nat.add_0_r. reflexivity.
  - cbn [app demo.loop length]. rewrite Ho, Hr, He.
    change (demo.throttle interval fps (demo.capture interval fps n))
      with (demo.capture interval fps (S n)).
    rewrite IH. replace (S n + length pre)%nat with (n + S (length pre))%nat
      by lia. reflexivity.
Qed.

(** X19.  The loop runs up to the first pass on which the camera is closed, the
    read fails or ESC is pressed.  A closed camera or a failed read ends it
    before that pass's frame is counted or shown; ESC ends it after the
    frame of that pass went through the throttle and was shown.  The loop
    variables are then those of the throttle after that many frames. *)
Theorem loop_ends_at_first_stop (interval fps : Z)
    (pre rest : list demo.tick) (t : demo.tick) :
  Forall goes_on pre -> ~ goes_on t ->
  let frames := if demo.opened t && demo.ret t
                then S (length pre) else length pre in
  demo.loop interval fps (pre ++ t :: rest) demo.loop_init 0
  = (demo.capture interval fps frames, frames).
Proof.
  intros Hpre Hstop frames.
  change demo.loop_init with (demo.capture interval fps 0).
  rewrite (loop_goes_on interval fps pre (t :: rest) 0 Hpre).
  cbn [demo.loop Nat.add]. subst frames. unfold goes_on in Hstop.
  destruct (demo.opened t); [|reflexivity].
  destruct (demo.ret t); [|reflexivity].
  destruct (demo.esc (demo.key t)); [reflexivity|].
  exfalso. apply Hstop. repeat split.
Qed.

(** ** More on the dataset split *)

(** The records of one letter in the two files the script writes. *)
Lemma script_letter_counts (permutation : nat -> list nat)
    (input : split.csv) (letter : string) :
  (forall n, permutation n ≡ₚ seq 0 n) ->
  split.header input = split.expected_cols ->
  exists train test : split.csv,
    split.script permutation input
    = (Some tt, [("train.csv"%string, train); ("test.csv"%string, test)]) /\
    split.count_letter letter train
    = (if decide (letter ∈ split.letters)
       then split.train_size (split.count_letter letter input) else 0%nat) /\
    split.count_letter letter test
    = (if decide (letter ∈ split.letters)
       then (split.count_letter letter input
             - split.train_size (split.count_letter letter input))%nat
       else 0%nat).
Proof.
  intros Hperm Hheader.
  pose (df := split.read_csv input).
  pose (parts := split.split_letter permutation df <$> split.letters).
  assert (length (filter (fun r : split.row => r.2 !! 0%nat = Some letter)
                         (split.rows df))
          = split.count_letter letter input) as Hcount.
  { unfold split.count_letter.
    rewrite filter_snd_length. subst df. cbn [split.rows split.read_csv].
    rewrite snd_range_index. reflexivity. }
  destruct (parts_count permutation Hperm input Hheader letter
              split.letters letters_NoDup) as [C1 C2].
  destruct (split_letter_partition permutation Hperm input Hheader letter)
    as (_ & L1 & L2).
  eexists _, _. split; [|split].
  - unfold split.script. rewrite decide_True by exact Hheader. reflexivity.
  - rewrite (count_letter_perm letter _ (concat parts.*1)).
    + subst parts df. rewrite C1, L1, Hcount. reflexivity.
    + rewrite concat_shuffle_records. apply fmap_Permutation.
      apply (sample_all _ Hperm).
  - rewrite (count_letter_perm letter _ (concat parts.*2)).
    + subst parts df. rewrite C2, L2, Hcount. reflexivity.
    + rewrite concat_shuffle_records. apply fmap_Permutation.
      apply (sample_all _ Hperm).
Qed.

(** X20.  Of the [n] records of a listed letter the training file gets the
    largest whole number not above four fifths of [n] and the test file the
    rest: a letter that occurs at all has a test record, and a letter that
    occurs once has no training record. *)
Theorem split_shares_of_a_letter (permutation : nat -> list nat)
    (input : split.csv) (letter : string) :
  (forall n, permutation n ≡ₚ seq 0 n) ->
  split.header input = split.expected_cols ->
  letter ∈ split.letters ->
  exists train test : split.csv,
    split.script permutation input
    = (Some tt, [("train.csv"%string, train); ("test.csv"%string, test)]) /\
    let n := split.count_letter letter input in
    let tr := split.count_letter letter train in
    let te := split.count_letter letter test in
    (tr + te = n)%nat /\
    (5 * tr <= 4 * n < 5 * tr + 5)%nat /\
    (1 <= n -> 1 <= te)%nat /\
    (tr = 0%nat <-> (n <= 1)%nat).
Proof.
  intros Hperm Hheader Hin.
  destruct (script_letter_counts permutation input letter Hperm Hheader)
    as (train & test & Hrun & Htr & Hte).
  rewrite decide_True in Htr, Hte by exact Hin.
  exists train, test. split; [exact Hrun|]. cbn zeta.
  rewrite Htr, Hte.
  pose proof (train_size_le (split.count_letter letter input)) as Hle.
  rewrite train_size_div in *.
  pose proof (Nat.div_mod_eq (split.count_letter letter input * 8) 10) as Hdm.
  pose proof (Nat.mod_upper_bound (split.count_letter letter input * 8) 10
                ltac:(lia)) as Hmod.
  repeat split; lia.
Qed.

(** ** The additional properties on sample inputs *)

Lemma composite_same_overlay_twice_witness :
  exists (once twice : np.loc) (σ1 σ2 : np.store) (out : np.image),
    utils.add_transparent_image 0 1 [fixtures.background; fixtures.foreground]
    = (Some once, σ1) /\
    utils.add_transparent_image once 1 σ1 = (Some twice, σ2) /\
    σ2 !! once = Some out /\ σ2 !! twice = Some out.
Proof.
  destruct (composite_same_overlay_twice 1 2
              [fixtures.background; fixtures.foreground] 0 1
              fixtures.background fixtures.foreground eq_refl eq_refl)
    as (once & twice & σ1 & σ2 & out & H1 & H2 & _ & H3 & H4).
  - split; [reflexivity|repeat constructor; lia].
  - split; [reflexivity|repeat constructor; lia].
  - exists once, twice, σ1, σ2, out. repeat split; assumption.
Defined.

Lemma composite_overlays_in_turn_witness :
  exists (a b c d : np.loc) (σa σb σc σd : np.store) (out : np.image),
    utils.add_transparent_image 0 1
      [fixtures.background; fixtures.foreground; [[[8; 0; 0]; [0; 0; 0]]]]
    = (Some a, σa) /\
    utils.add_transparent_image a 2 σa = (Some b, σb) /\
    utils.add_transparent_image 1 2
      [fixtures.background; fixtures.foreground; [[[8; 0; 0]; [0; 0; 0]]]]
    = (Some c, σc) /\
    utils.add_transparent_image 0 c σc = (Some d, σd) /\
    σb !! b = Some out /\ σd !! d = Some out.
Proof.
  apply (composite_overlays_in_turn 1 2
           [fixtures.background; fixtures.foreground;
            [[[8; 0; 0]; [0; 0; 0]]]] 0 1 2
           fixtures.background fixtures.foreground [[[8; 0; 0]; [0; 0; 0]]]
           eq_refl eq_refl eq_refl);
    (split; [reflexivity|repeat constructor; lia]).
Defined.

Lemma composite_dense_overlay_witness :
  exists (result : np.loc) (σ' : np.store),
    utils.add_transparent_image 0 1
      [fixtures.background; [[[0; 0; 1]; [0; 7; 0]]]] = (Some result, σ') /\
    σ' !! result = Some [[[0; 0; 1]; [0; 7; 0]]].
Proof.
  apply (composite_dense_overlay 1 2
           [fixtures.background; [[[0; 0; 1]; [0; 7; 0]]]] 0 1
           fixtures.background [[[0; 0; 1]; [0; 7; 0]]] eq_refl eq_refl).
  - split; [reflexivity|repeat constructor; lia].
  - split; [reflexivity|repeat constructor; lia].
  - repeat constructor.
Defined.

Lemma draw_landmarks_on_image_missing_label_witness :
  (utils.draw_landmarks_on_image fixtures.draw_landmarks fixtures.putText
     1 fixtures.two_hands ["A"%string] fixtures.store).1 = None.
Proof.
  apply (draw_landmarks_on_image_missing_label fixtures.draw_landmarks
           fixtures.putText 1 fixtures.two_hands ["A"%string] fixtures.store).
  simpl. lia.
Defined.

Lemma draw_landmarks_on_image_empty_hand_witness :
  (utils.draw_landmarks_on_image fixtures.draw_landmarks fixtures.putText
     1 (fixtures.one_hand []) ["A"%string] fixtures.store).1 = None.
Proof.
  apply (draw_landmarks_on_image_empty_hand fixtures.draw_landmarks
           fixtures.putText 1 (fixtures.one_hand []) ["A"%string]
           fixtures.store).
  simpl. left.
Defined.

Lemma draw_landmarks_on_image_writes_fresh_witness :
  (utils.draw_landmarks_on_image fixtures.draw_landmarks fixtures.putText
     1 (fixtures.one_hand fixtures.hand21) ["A"%string] fixtures.store).2
  !! 1%nat = Some [[[1; 2; 3]]].
Proof.
  exact (proj1 (draw_landmarks_on_image_writes_fresh fixtures.draw_landmarks
                  fixtures.putText 1 (fixtures.one_hand fixtures.hand21)
                  ["A"%string] fixtures.store _ _
                  (surjective_pairing _)) 1%nat [[[1; 2; 3]]] eq_refl).
Defined.

Lemma fixtures_draw_landmarks_shape (h w : nat) (a : np.image) :
  np.has_shape h w 3 a ->
  np.has_shape h w 3 (map (map (fun _ : np.pixel => [0; 255; 0])) a).
Proof.
  intros [Hh Hrows]. split; [rewrite length_map; exact Hh|].
  rewrite Forall_forall in Hrows. apply Forall_forall. intros row Hrow.
  apply list_elem_of_In, in_map_iff in Hrow as (row' & <- & Hin).
  apply list_elem_of_In, Hrows in Hin as [Hw _].
  split; [rewrite length_map; exact Hw|].
  apply Forall_forall. intros px Hpx.
  apply list_elem_of_In, in_map_iff in Hpx as (px' & <- & _).
  split; [reflexivity|repeat constructor; lia].
Qed.

Lemma draw_landmarks_on_image_succeeds_witness :
  exists (r : np.loc) (σ' : np.store) (out : np.image),
    utils.draw_landmarks_on_image fixtures.draw_landmarks fixtures.putText
      1 fixtures.two_hands ["A"%string; "B"%string] fixtures.store
    = (Some r, σ') /\
    σ' !! r = Some out /\ np.has_shape 1 1 3 out.
Proof.
  apply (draw_landmarks_on_image_succeeds fixtures.draw_landmarks
           fixtures.putText 1 1 3) with (img := [[[1; 2; 3]]]).
  - intros a hand Sa _. eexists. split; [reflexivity|].
    apply fixtures_draw_landmarks_shape, Sa.
  - intros a arg Sa _. eexists. split; [reflexivity|exact Sa].
  - reflexivity.
  - split; [reflexivity|repeat constructor; lia].
  - repeat constructor; discriminate.
  - simpl. lia.
Defined.

Lemma drawLandmarks_names_hand_at_min_corner_witness :
  exists (outlined filled : np.image),
    fixtures.putText_styled [[[0; 255; 0]]] "Right" (0, -20) utils.outline
    = Some outlined /\
    fixtures.putText_styled outlined "Right" (0, -20) utils.fill
    = Some filled /\
    (utils.drawHand fixtures.draw_landmarks fixtures.putText_styled 2 4
       (fixtures.one_hand fixtures.spread_hand) 0 0 [[[[0; 0; 0]]]]).2
    = [filled].
Proof.
  destruct (utils.drawHand fixtures.draw_landmarks fixtures.putText_styled 2 4
              (fixtures.one_hand fixtures.spread_hand) 0 0 [[[[0; 0; 0]]]])
    as [[[]|] σ'] eqn:E; [|vm_compute in E; discriminate E].
  destruct (drawLandmarks_names_hand_at_min_corner fixtures.draw_landmarks
              fixtures.putText_styled 2 4
              (fixtures.one_hand fixtures.spread_hand) 0 0 [[[[0; 0; 0]]]]
              σ' E)
    as (landmarks & first & x & y & canvas & skeleton & outlined & filled
        & Hl & Hf & Hx & Hy & Hc & Hs & Ho & Hfill & Hσ & _).
  injection Hl as <-. injection Hf as <-.
  vm_compute in Hx. injection Hx as <-.
  vm_compute in Hy. injection Hy as <-.
  injection Hc as <-. injection Hs as <-.
  exists outlined, filled. split; [exact Ho|]. split; [exact Hfill|exact Hσ].
Defined.

Lemma drawLandmarks_missing_handedness_witness :
  (utils.drawLandmarks fixtures.draw_landmarks fixtures.putText_styled 1
     {| mp.handedness := []; mp.hand_landmarks := [fixtures.hand21];
        mp.hand_world_landmarks := [fixtures.hand21] |}
     "overlay" fixtures.store).1 = None.
Proof.
  apply (drawLandmarks_missing_handedness fixtures.draw_landmarks
           fixtures.putText_styled 1
           {| mp.handedness := []; mp.hand_landmarks := [fixtures.hand21];
              mp.hand_world_landmarks := [fixtures.hand21] |}
           "overlay" fixtures.store).
  simpl. lia.
Defined.

Lemma drawLandmarks_writes_fresh_witness :
  (utils.drawLandmarks fixtures.draw_landmarks fixtures.putText_styled 1
     (fixtures.one_hand fixtures.hand21) "overlay" fixtures.store).2
  !! 1%nat = Some [[[1; 2; 3]]].
Proof.
  exact (proj1 (drawLandmarks_writes_fresh fixtures.draw_landmarks
                  fixtures.putText_styled 1
                  (fixtures.one_hand fixtures.hand21) "overlay"
                  fixtures.store _ _ (surjective_pairing _))
           1%nat [[[1; 2; 3]]] eq_refl).
Defined.

Lemma print_result_predictions_are_current_witness :
  (length (demo.predictions
             (demo.print_result fixtures.scaler fixtures.classifier_right_only
                fixtures.draw_landmarks fixtures.putText fixtures.two_hands 1
                fixtures.globals fixtures.store).1) <= 2)%nat.
Proof.
  exact (proj1 (print_result_predictions_are_current fixtures.scaler
                  fixtures.classifier_right_only fixtures.draw_landmarks
                  fixtures.putText fixtures.two_hands 1 fixtures.globals
                  fixtures.store)).
Defined.

Lemma print_result_publishes_witness :
  demo.print_result fixtures.scaler fixtures.classifier
    fixtures.draw_landmarks fixtures.putText
    (fixtures.one_hand fixtures.hand21) 1 fixtures.globals fixtures.store
  = ({| demo.predictions := ["B"%string]; demo.drawn_frame := 4 |},
     fixtures.store ++
     [ [[[0; 255; 0]]]; [[[0; 255; 0]]]; [[[0; 255; 0]]] ]).
Proof.
  apply (print_result_publishes fixtures.scaler fixtures.classifier
           fixtures.draw_landmarks fixtures.putText
           (fixtures.one_hand fixtures.hand21) 1 fixtures.globals
           fixtures.store).
  - intros i Hi. simpl in Hi. destruct i; [eexists; reflexivity|lia].
  - reflexivity.
Defined.

Lemma print_result_no_hands_witness :
  demo.print_result fixtures.scaler fixtures.classifier
    fixtures.draw_landmarks fixtures.putText fixtures.no_hands 1
    fixtures.globals fixtures.store
  = ({| demo.predictions := []; demo.drawn_frame := 2 |},
     fixtures.store ++ [ [[[0; 0; 0]]] ]).
Proof.
  apply (print_result_no_hands fixtures.scaler fixtures.classifier
           fixtures.draw_landmarks fixtures.putText fixtures.no_hands 1
           fixtures.globals fixtures.store [[[1; 2; 3]]]);
    reflexivity.
Defined.

Lemma submissions_spaced_witness :
  StronglySorted Z.gt (demo.submitted (demo.capture 10 4 10)).
Proof.
  apply (proj2 (submissions_spaced 10 4 10)). lia.
Defined.

Lemma submissions_every_kth_frame_witness :
  Z.of_nat (length (demo.submitted (demo.capture 10 4 10))) = 10 / (10 / 4 + 1).
Proof. apply (submissions_every_kth_frame 10 4 10); lia. Defined.

Lemma no_submission_without_progress_witness :
  demo.submitted (demo.capture 10 0 5) = [].
Proof. apply (no_submission_without_progress 10 0 5); lia. Defined.

Lemma fps_whole_rate_witness :
  exists step : Z,
    demo.fps (inject_Z 30) = Some step /\ step = 1000 / 30 /\
    (demo.INTERVAL < step <-> 30 <= 90) /\ (step = 0 <-> 1000 < 30).
Proof. apply (fps_whole_rate 30). lia. Defined.

Lemma esc_low_byte_witness : demo.esc (27 + 256 * 4) = true.
Proof. exact (proj2 (proj2 (esc_low_byte 4))). Defined.

Lemma loop_ends_at_first_stop_witness :
  demo.loop 10 33
    [ {| demo.opened := true; demo.ret := true; demo.key := -1 |};
      {| demo.opened := true; demo.ret := true; demo.key := 27 |};
      {| demo.opened := true; demo.ret := true; demo.key := -1 |} ]
    demo.loop_init 0
  = (demo.capture 10 33 2, 2%nat).
Proof.
  apply (loop_ends_at_first_stop 10 33
           [ {| demo.opened := true; demo.ret := true; demo.key := -1 |} ]
           [ {| demo.opened := true; demo.ret := true; demo.key := -1 |} ]
           {| demo.opened := true; demo.ret := true; demo.key := 27 |}).
  - repeat constructor.
  - intros (_ & _ & H). discriminate H.
Defined.

Lemma split_shares_of_a_letter_witness :
  exists train test : split.csv,
    split.script (seq 0) fixtures.table_A
    = (Some tt, [("train.csv"%string, train); ("test.csv"%string, test)]) /\
    (split.count_letter "A" train + split.count_letter "A" test
     = split.count_letter "A" fixtures.table_A)%nat.
Proof.
  destruct (split_shares_of_a_letter (seq 0) fixtures.table_A "A")
    as (train & test & Hrun & Hsum & _).
  - intros n. reflexivity.
  - reflexivity.
  - vm_compute. repeat constructor.
  - exists train, test. split; [exact Hrun|exact Hsum].
Defined.
